(** * Deep-CFR training helpers: regret matching, strategy-network update,
      declaration-accuracy scoring and the training/evaluation loop.

    Shallow embedding of
      - [client/Back/update_strategy_network.py]
      - [client/Back/CFRTrainingEvaluator.py]

    Numbers are exact rationals ([Q], compared with [==]), the reading
    of the numpy arithmetic in which nothing overflows or is rounded; the
    regret-matching lines are embedded a second time on binary64 numbers,
    where overflow and rounding show.  numpy arrays
    are a shape together with their row-major data; Python exceptions
    are values of [exn] carried by the [Raise] constructor of [Result];
    mutable objects (the reservoir buffer, the evaluator's history, the
    pseudo-random generator, the estimators' call records) live in an
    explicit [World] threaded through a state-and-exception monad. *)

From Stdlib Require Import String QArith Qminmax Lqa ZArith List Lia Bool.
From Stdlib Require Import Permutation Sorted PrimFloat.
Import ListNotations.

Local Open Scope Q_scope.

(* ================================================================== *)
(** ** Exceptions and results *)

(** A Python exception, identified by the name of its class. *)
Inductive exn : Type :=
| Exception (cls : string).

Inductive Result (A : Type) : Type :=
| Ok (a : A)
| Raise (e : exn).

Arguments Ok {A} a.
Arguments Raise {A} e.

(** Raised by numpy and by [random.sample]. *)
Definition ValueError : exn := Exception "ValueError".

(** The two exception classes the specification names; the sources
    define neither. *)
Definition EmptyStatePoolError : exn := Exception "EmptyStatePoolError".
Definition InsufficientDataError : exn := Exception "InsufficientDataError".

(* ================================================================== *)
(** ** Regret matching (update_strategy_network.py, lines 20-27) *)

(** The transform is embedded twice.  [RegretMatching] reads the
    arithmetic of lines 20-27 as exact arithmetic on rationals: it is
    what the numpy code computes when no intermediate result overflows
    and rounding is disregarded.  [RegretMatchingFloat], further down,
    reads the same lines on binary64 numbers, where a shift can
    overflow to infinity and close entries can be absorbed. *)

Module RegretMatching.

(** [x > y] on numbers, as a boolean test. *)
Definition Qgtb (x y : Q) : bool :=
  match x ?= y with
  | Gt => true
  | _ => false
  end.

(** [epsilon = 1e-6] *)
Definition epsilon : Q := 1 # 1000000.

(** [np.min] of a one-dimensional vector; numpy raises [ValueError] on a
    zero-size array. *)
Definition np_min (v : list Q) : Result Q :=
  match v with
  | [] => Raise ValueError
  | x :: xs => Ok (fold_left Qmin xs x)
  end.

(** [np.sum] of a one-dimensional vector. *)
Definition np_sum (v : list Q) : Q := fold_left Qplus v 0.

(** [advantage_vector - min_adv + epsilon], broadcast over the entries. *)
Definition shifted_advantages (advantage_vector : list Q) (min_adv : Q) : list Q :=
  map (fun a => a - min_adv + epsilon) advantage_vector.

(** [np.ones_like(advantage_vector) / len(advantage_vector)] *)
Definition uniform_policy (advantage_vector : list Q) : list Q :=
  map (fun _ => 1 / inject_Z (Z.of_nat (length advantage_vector))) advantage_vector.

(** Which of the two branches of the [if sum_positive > 0] produced the
    policy. *)
Inductive Branch : Type := Normalized | UniformFallback.

(** The body of the inner loop, up to the value bound to [policy],
    together with the branch that was taken. *)
Definition regret_match_branch (advantage_vector : list Q) : Result (Branch * list Q) :=
  match np_min advantage_vector with
  | Raise e => Raise e
  | Ok min_adv =>
      let shifted := shifted_advantages advantage_vector min_adv in
      let sum_positive := np_sum shifted in
      if Qgtb sum_positive 0
      then Ok (Normalized, map (fun s => s / sum_positive) shifted)
      else Ok (UniformFallback, uniform_policy advantage_vector)
  end.

Definition regret_match (advantage_vector : list Q) : Result (list Q) :=
  match regret_match_branch advantage_vector with
  | Raise e => Raise e
  | Ok (_, policy) => Ok policy
  end.

End RegretMatching.

Export RegretMatching.

(** Lines 20-27 on binary64 numbers, for an advantage vector of numpy's
    dtype float64, operation by operation with IEEE 754 rounding to
    nearest.  [np.sum] adds the entries from left to right, as numpy
    does for the vectors of fewer than 8 entries used below; numpy sums
    longer vectors pairwise, which changes the rounding only. *)
Module RegretMatchingFloat.

#[local] Set Warnings "-inexact-float".
Local Open Scope float_scope.

(** [epsilon = 1e-6]: the binary64 number nearest to it. *)
Definition epsilon : float := 1e-6.

(** The comparison [np.min] folds with: a NaN operand is propagated. *)
Definition minimum (a b : float) : float :=
  if (is_nan a || is_nan b)%bool then nan
  else if b <? a then b else a.

Definition np_min (v : list float) : Result float :=
  match v with
  | [] => Raise ValueError
  | x :: xs => Ok (fold_left minimum xs x)
  end.

(** [np.sum] of a one-dimensional vector. *)
Definition np_sum (v : list float) : float := fold_left add v 0.

(** [advantage_vector - min_adv + epsilon], broadcast over the entries. *)
Definition shifted_advantages (advantage_vector : list float) (min_adv : float)
    : list float :=
  map (fun a => a - min_adv + epsilon) advantage_vector.

(** [len(advantage_vector)] as a float. *)
Definition len (v : list float) : float := fold_left (fun n _ => n + 1) v 0.

(** [np.ones_like(advantage_vector) / len(advantage_vector)] *)
Definition uniform_policy (advantage_vector : list float) : list float :=
  map (fun _ => 1 / len advantage_vector) advantage_vector.

(** The body of the inner loop up to the value bound to [policy], with
    the branch of [if sum_positive > 0] that was taken. *)
Definition regret_match_branch (advantage_vector : list float)
    : Result (Branch * list float) :=
  match np_min advantage_vector with
  | Raise e => Raise e
  | Ok min_adv =>
      let shifted := shifted_advantages advantage_vector min_adv in
      let sum_positive := np_sum shifted in
      if 0 <? sum_positive
      then Ok (Normalized, map (fun s => s / sum_positive) shifted)
      else Ok (UniformFallback, uniform_policy advantage_vector)
  end.

Definition regret_match (advantage_vector : list float) : Result (list float) :=
  match regret_match_branch advantage_vector with
  | Raise e => Raise e
  | Ok (_, policy) => Ok policy
  end.




End RegretMatchingFloat.

(* ================================================================== *)
(** ** numpy arrays: a shape and the row-major data *)

Record ndarray : Type := mk_ndarray {
  shape : list nat;
  data : list Q
}.

(** Number of elements a shape describes ([ndarray.size]). *)
Definition size_of (sh : list nat) : nat := fold_right Nat.mul 1%nat sh.

(** A one-dimensional array holding the given numbers. *)
Definition vector (v : list Q) : ndarray :=
  {| shape := [length v]; data := v |}.

Definition same_shape (a b : ndarray) : bool :=
  if list_eq_dec Nat.eq_dec (shape a) (shape b) then true else false.

(** [np.array(rows)] on a Python list of arrays: the rows are stacked
    along a new leading axis; rows of different shapes are rejected
    with [ValueError] (inhomogeneous shape). *)
Definition np_array (rows : list ndarray) : Result ndarray :=
  match rows with
  | [] => Ok {| shape := [0%nat]; data := [] |}
  | r :: rs =>
      if forallb (same_shape r) rs
      then Ok {| shape := length rows :: shape r;
                 data := concat (map data rows) |}
      else Raise ValueError
  end.

(** [a.reshape(-1, input_size)]: the leading dimension is inferred from
    the number of elements; numpy raises [ValueError] when the elements
    do not fill whole rows, and for a zero-width row. *)
Definition reshape (a : ndarray) (input_size : nat) : Result ndarray :=
  let n := size_of (shape a) in
  if (input_size =? 0)%nat then Raise ValueError
  else if (n mod input_size =? 0)%nat
       then Ok {| shape := [(n / input_size)%nat; input_size]; data := data a |}
       else Raise ValueError.

(** The guard both training routines apply to the stacked states:
[[
    if len(states.shape) == 3:
        states = states.reshape(-1, self.input_size)
]] *)
Definition reshape_guard (input_size : nat) (states : ndarray) : Result ndarray :=
  if (length (shape states) =? 3)%nat
  then reshape states input_size
  else Ok states.

(* ================================================================== *)
(** ** Game states, buffers, metric history and the mutable world *)

Record GameState : Type := mk_state {
  legal_action : list Q;
  selectaction : Q;
  sum : Q
}.

(** One call of an estimator's [fit], as seen by the estimator. *)
Record FitCall : Type := mk_fit {
  fit_inputs : ndarray;
  fit_targets : ndarray;
  fit_epochs : nat
}.

(** An entry of the strategy buffer: [(encoded_state, policy)]. *)
Definition Entry : Type := (ndarray * list Q)%type.

Record ReservoirBuffer : Type := mk_buffer {
  capacity : nat;
  buffer : list Entry;
  seen : nat
}.

(** [CFRTrainingEvaluator.history] *)
Record MetricHistory : Type := mk_history {
  advantage_loss : list Q;
  strategy_accuracy : list Q;
  declaration_vs_sum_ratio : list Q;
  win_rate : list Q;
  epoch : list nat
}.

Definition empty_history : MetricHistory :=
  {| advantage_loss := []; strategy_accuracy := [];
     declaration_vs_sum_ratio := []; win_rate := []; epoch := [] |}.

(** Everything the routines mutate: the two pseudo-random generators
    (Python's [random] and [np.random], each a stream of future draws),
    the reservoir buffer object handed to [update_strategy_network], the
    evaluator's history, and the calls each estimator has received. *)
Record World : Type := mk_world {
  random_state : list nat;
  np_random_state : list nat;
  reservoir_buffer : ReservoirBuffer;
  history : MetricHistory;
  strategy_fit_calls : list FitCall;
  advantage_fit_calls : list FitCall
}.

Definition set_random_state (r : list nat) (w : World) : World :=
  mk_world r (np_random_state w) (reservoir_buffer w) (history w)
           (strategy_fit_calls w) (advantage_fit_calls w).

Definition set_np_random_state (r : list nat) (w : World) : World :=
  mk_world (random_state w) r (reservoir_buffer w) (history w)
           (strategy_fit_calls w) (advantage_fit_calls w).

Definition set_reservoir_buffer (b : ReservoirBuffer) (w : World) : World :=
  mk_world (random_state w) (np_random_state w) b (history w)
           (strategy_fit_calls w) (advantage_fit_calls w).

Definition set_history (h : MetricHistory) (w : World) : World :=
  mk_world (random_state w) (np_random_state w) (reservoir_buffer w) h
           (strategy_fit_calls w) (advantage_fit_calls w).

Definition record_strategy_fit (c : FitCall) (w : World) : World :=
  mk_world (random_state w) (np_random_state w) (reservoir_buffer w) (history w)
           (strategy_fit_calls w ++ [c]) (advantage_fit_calls w).

Definition record_advantage_fit (c : FitCall) (w : World) : World :=
  mk_world (random_state w) (np_random_state w) (reservoir_buffer w) (history w)
           (strategy_fit_calls w) (advantage_fit_calls w ++ [c]).

(* ================================================================== *)
(** ** The state-and-exception monad *)

Definition M (A : Type) : Type := World -> Result A * World.

Definition ret {A : Type} (a : A) : M A := fun w => (Ok a, w).

Definition raise {A : Type} (e : exn) : M A := fun w => (Raise e, w).

Definition lift {A : Type} (r : Result A) : M A := fun w => (r, w).

Definition bind {A B : Type} (m : M A) (k : A -> M B) : M B :=
  fun w =>
    match m w with
    | (Ok a, w') => k a w'
    | (Raise e, w') => (Raise e, w')
    end.

Definition get : M World := fun w => (Ok w, w).

Definition modify (f : World -> World) : M unit := fun w => (Ok tt, f w).

Declare Scope monad_scope.
Delimit Scope monad_scope with monad.
Notation "x <- m ;; k" := (bind m (fun x => k))
  (at level 61, m at next level, right associativity) : monad_scope.
Notation "' pat <- m ;; k" := (bind m (fun x => match x with pat => k end))
  (at level 61, pat pattern, m at next level, right associativity) : monad_scope.
Notation "m ;; k" := (bind m (fun _ => k))
  (at level 61, right associativity) : monad_scope.
Local Open Scope monad_scope.

(** [for x in xs: body(x)] *)
Fixpoint for_each {A : Type} (body : A -> M unit) (xs : list A) : M unit :=
  match xs with
  | [] => ret tt
  | x :: rest => body x ;; for_each body rest
  end.

(** [[f(x) for x in xs]] where [f] has effects. *)
Fixpoint map_m {A B : Type} (f : A -> M B) (xs : list A) : M (list B) :=
  match xs with
  | [] => ret []
  | x :: rest => y <- f x ;; ys <- map_m f rest ;; ret (y :: ys)
  end.

(** [xs[idx]] *)
Definition getitem {A : Type} (xs : list A) (idx : nat) : M A :=
  match nth_error xs idx with
  | Some x => ret x
  | None => raise (Exception "IndexError")
  end.

(* ================================================================== *)
(** ** Pseudo-random generators *)

(** The next draw of a generator, reduced to the range [0, bound). *)
Definition next_draw (bound : nat) (stream : list nat) : nat * list nat :=
  match stream with
  | [] => (0%nat, [])
  | r :: rest => ((r mod bound)%nat, rest)
  end.

Definition random_below (bound : nat) : M nat :=
  fun w =>
    let (i, rest) := next_draw bound (random_state w) in
    (Ok i, set_random_state rest w).

Definition np_random_below (bound : nat) : M nat :=
  fun w =>
    let (i, rest) := next_draw bound (np_random_state w) in
    (Ok i, set_np_random_state rest w).

(** Granularity of the draws in the unit interval. *)
Definition resolution : nat := 1000.

Definition unit_interval (i : nat) : Q :=
  inject_Z (Z.of_nat i) / inject_Z (Z.of_nat resolution).

(** [random.random()]: a number in [0, 1). *)
Definition random_random : M Q :=
  i <- random_below resolution ;;
  ret (unit_interval i).

Definition remove_at {A : Type} (i : nat) (xs : list A) : list A :=
  firstn i xs ++ skipn (S i) xs.

Fixpoint draw_without_replacement {A : Type} (k : nat) (pool : list A) : M (list A) :=
  match k with
  | O => ret []
  | S k' =>
      i <- random_below (length pool) ;;
      match nth_error pool i with
      | None => ret []
      | Some x =>
          rest <- draw_without_replacement k' (remove_at i pool) ;;
          ret (x :: rest)
      end
  end.

(** [random.sample(population, k)]: [k] distinct positions of the
    population; [ValueError] when [k] is negative or exceeds the
    population. *)
Definition random_sample {A : Type} (population : list A) (k : Z) : M (list A) :=
  if ((k <? 0) || (Z.of_nat (length population) <? k))%Z
  then raise ValueError
  else draw_without_replacement (Z.to_nat k) population.

(** [np.random.choice(a, size)] for an integer [a]: [size] independent
    indices below [a]; numpy raises [ValueError] ("a must be greater
    than 0 unless no samples are taken") for an empty range. *)
Definition np_random_choice (a size : nat) : M (list nat) :=
  if ((a =? 0) && negb (size =? 0))%nat
  then raise ValueError
  else map_m (fun _ => np_random_below a) (repeat tt size).

(** [np.random.rand(rows, cols)] *)
Definition np_random_rand (rows cols : nat) : M ndarray :=
  draws <- map_m (fun _ => np_random_below resolution) (repeat tt (rows * cols)) ;;
  ret {| shape := [rows; cols]; data := map unit_interval draws |}.

(* ================================================================== *)
(** ** Reservoir buffer *)

Definition replace_at {A : Type} (i : nat) (x : A) (xs : list A) : list A :=
  firstn i xs ++ x :: skipn (S i) xs.

(** Modelled from the spec: [ReservoirBuffer.add] (module
    [reservoirbuffer] is imported by the sources but not part of them).
    The seen-count is incremented; below capacity the item is appended;
    at capacity an index is drawn uniformly in [0, seen_count), and the
    item overwrites the entry at that index when the index is below the
    capacity and is discarded otherwise. *)
Definition buffer_add (item : Entry) : M unit :=
  w <- get ;;
  let b := reservoir_buffer w in
  let seen_count := S (seen b) in
  if (length (buffer b) <? capacity b)%nat
  then modify (set_reservoir_buffer
                 (mk_buffer (capacity b) (buffer b ++ [item]) seen_count))
  else
    idx <- random_below seen_count ;;
    if (idx <? capacity b)%nat
    then modify (set_reservoir_buffer
                   (mk_buffer (capacity b) (replace_at idx item (buffer b)) seen_count))
    else modify (set_reservoir_buffer
                   (mk_buffer (capacity b) (buffer b) seen_count)).

(** Modelled from the spec: [ReservoirBuffer.sample]. It returns
    [batch_size] items drawn without replacement from the current
    contents and fails with [InsufficientDataError] when the buffer
    holds fewer than [batch_size] items. *)
Definition buffer_sample (batch_size : nat) : M (list Entry) :=
  w <- get ;;
  if (length (buffer (reservoir_buffer w)) <? batch_size)%nat
  then raise InsufficientDataError
  else draw_without_replacement batch_size (buffer (reservoir_buffer w)).

(* ================================================================== *)
(** ** update_strategy_network.py *)

Section StrategyUpdate.

(** [self.input_size] *)
Variable input_size : nat.

(** [strategy_net.model.fit(states, policy_targets, epochs=..., verbose=0)]:
    the estimator is an opaque collaborator; it may raise. *)
Variable strategy_net_fit : ndarray -> ndarray -> nat -> Result unit.

Definition strategy_fit (states policy_targets : ndarray) (epochs : nat) : M unit :=
  modify (record_strategy_fit (mk_fit states policy_targets epochs)) ;;
  lift (strategy_net_fit states policy_targets epochs).

(** Lines 18-31: one [(encoded_state, advantage_vector)] observation. *)
Definition add_policy_target (observation : ndarray * list Q) : M unit :=
  let (encoded_state, advantage_vector) := observation in
  policy <- lift (regret_match advantage_vector) ;;
  buffer_add (encoded_state, policy).

(** Lines 16-31: the two nested loops over [advantages.items()]. *)
Definition add_policy_targets
    (advantages : list (string * list (ndarray * list Q))) : M unit :=
  for_each (fun item => for_each add_policy_target (snd item)) advantages.

(** Lines 38-51: assemble the sampled batch and train on it. *)
Definition fit_on_samples (samples : list Entry) (epochs : nat) : M unit :=
  states <- lift (np_array (map fst samples)) ;;
  policy_targets <- lift (np_array (map (fun s => vector (snd s)) samples)) ;;
  states <- lift (reshape_guard input_size states) ;;
  strategy_fit states policy_targets epochs.

Definition update_strategy_network
    (advantages : list (string * list (ndarray * list Q)))
    (batch_size epochs : nat) : M unit :=
  add_policy_targets advantages ;;
  w <- get ;;
  if (length (buffer (reservoir_buffer w)) <? batch_size)%nat
  then ret tt
  else
    samples <- buffer_sample batch_size ;;
    fit_on_samples samples epochs.

End StrategyUpdate.

(* ================================================================== *)
(** ** CFRTrainingEvaluator.py *)

Section Evaluator.

(** [encode_state], imported from a module outside these sources. *)
Variable encode_state : GameState -> ndarray.

(** [log_metrics]: the epoch is always appended, each metric only when a
    value was passed. *)
Definition append_some (x : option Q) (xs : list Q) : list Q :=
  match x with
  | Some v => xs ++ [v]
  | None => xs
  end.

Definition log_metrics (epoch_index : nat)
    (advantage_loss_value strategy_accuracy_value
     declaration_vs_sum_ratio_value win_rate_value : option Q) : M unit :=
  modify (fun w =>
    let h := history w in
    set_history
      {| epoch := epoch h ++ [epoch_index];
         advantage_loss := append_some advantage_loss_value (advantage_loss h);
         strategy_accuracy := append_some strategy_accuracy_value (strategy_accuracy h);
         declaration_vs_sum_ratio :=
           append_some declaration_vs_sum_ratio_value (declaration_vs_sum_ratio h);
         win_rate := append_some win_rate_value (win_rate h) |} w).

(** The three accumulators of [evaluate_declaration_accuracy]. *)
Record Tally : Type := mk_tally {
  correct_declarations : nat;
  total_ratio : Q;
  overestimation_count : nat
}.

Definition empty_tally : Tally := mk_tally 0 0 0.

(** Lines 58-81: the body of [for state in sampled_states]. *)
Definition tally_state (t : Tally) (state : GameState) : Tally :=
  let encoded_state := encode_state state in
  let declaration := selectaction state in
  let actual_sum := sum state in
  if Qgtb actual_sum 0 then
    let ratio := declaration / actual_sum in
    mk_tally
      (if Qle_bool (8 # 10) ratio && Qle_bool ratio (12 # 10)
       then S (correct_declarations t) else correct_declarations t)
      (total_ratio t + ratio)
      (if Qgtb declaration actual_sum
       then S (overestimation_count t) else overestimation_count t)
  else t.

Definition count_over (count : nat) (sample_size : Z) : Q :=
  if (0 <? sample_size)%Z
  then inject_Z (Z.of_nat count) / inject_Z sample_size
  else 0.

(** Lines 57-87: the loop over the sampled states and the returned
    triple [(avg_ratio, accuracy, overestimation_rate)]. *)
Definition declaration_metrics (sampled_states : list GameState) (sample_size : Z)
    : Q * Q * Q :=
  let t := fold_left tally_state sampled_states empty_tally in
  let avg_ratio :=
    if (0 <? sample_size)%Z then total_ratio t / inject_Z sample_size else 0 in
  let accuracy := count_over (correct_declarations t) sample_size in
  let overestimation_rate := count_over (overestimation_count t) sample_size in
  (avg_ratio, accuracy, overestimation_rate).

(** [sample_size = min(num_samples, len(test_states))] *)
Definition sample_size (test_states : list GameState) (num_samples : Z) : Z :=
  Z.min num_samples (Z.of_nat (length test_states)).

Definition evaluate_declaration_accuracy
    (test_states : list GameState) (num_samples : Z) : M (Q * Q * Q) :=
  sampled_states <- random_sample test_states (sample_size test_states num_samples) ;;
  ret (declaration_metrics sampled_states (sample_size test_states num_samples)).

(** [evaluate_win_rate]: the threshold of one simulated game. *)
Definition win_threshold (opponent : string) (h : MetricHistory) : Q :=
  if String.eqb opponent "random"
  then Qmin ((5 # 10) + inject_Z (Z.of_nat (length (epoch h))) * (1 # 100)) (9 # 10)
  else 5 # 10.

Fixpoint play_games (opponent : string) (num_games wins : nat) : M nat :=
  match num_games with
  | O => ret wins
  | S remaining =>
      result <- random_random ;;
      w <- get ;;
      play_games opponent remaining
        (if Qgtb (win_threshold opponent (history w)) result then S wins else wins)
  end.

Definition evaluate_win_rate (num_games : nat) (opponent : string) : M Q :=
  wins <- play_games opponent num_games 0 ;;
  if (num_games =? 0)%nat
  then raise (Exception "ZeroDivisionError")
  else ret (inject_Z (Z.of_nat wins) / inject_Z (Z.of_nat num_games)).

(** *** evaluate_cfr_training *)

(** [self.input_size] *)
Variable input_size : nat.

(** [advantage_net.fit(inputs, targets, epochs=1, verbose=0).history['loss'][0]]:
    an opaque estimator returning its first-epoch loss; it may raise. *)
Variable advantage_net_fit : ndarray -> ndarray -> nat -> Result Q.

(** Lines 257-267: chart generation and saving, a presentation-only
    collaborator that reads the history and the pool. *)
Variable presentation : MetricHistory -> list GameState -> Result unit.

Definition advantage_fit (inputs targets : ndarray) (epochs : nat) : M Q :=
  modify (record_advantage_fit (mk_fit inputs targets epochs)) ;;
  lift (advantage_net_fit inputs targets epochs).

Definition output_size : nat := 141.

(** Lines 219-255: the body of [for i in tqdm(range(iterations))]. *)
Definition training_iteration (current_state : list GameState) (i : nat) : M unit :=
  let batch_size := 32%nat in
  batch_indices <- np_random_choice (length current_state) batch_size ;;
  batch_states <- map_m (getitem current_state) batch_indices ;;
  encoded_states <- lift (np_array (map encode_state batch_states)) ;;
  encoded_states <- lift (reshape_guard input_size encoded_states) ;;
  targets <- np_random_rand batch_size output_size ;;
  loss <- advantage_fit encoded_states targets 1 ;;
  r <- random_random ;;
  let accuracy := r * (2 # 10) + (6 # 10) in
  metrics <- evaluate_declaration_accuracy current_state 100 ;;
  let declaration_ratio := fst (fst metrics) in
  rate <- evaluate_win_rate 50 "random" ;;
  log_metrics i (Some loss) (Some accuracy) (Some declaration_ratio) (Some rate).

Definition evaluate_cfr_training (current_state : list GameState) (iterations : nat)
    : M MetricHistory :=
  modify (set_history empty_history) ;;
  for_each (training_iteration current_state) (seq 0 iterations) ;;
  w <- get ;;
  lift (presentation (history w) current_state) ;;
  ret (history w).

End Evaluator.

(* ================================================================== *)
(** ** The pure parts of the two plotting routines *)

(** [plot_declaration_distribution], lines 186-187:
[[
    overestimations = sum(1 for d, s in zip(declarations, actual_sums) if d > s)
    overestimation_rate = overestimations / len(declarations) if declarations else 0
]] *)
Definition overestimations (declarations actual_sums : list Q) : nat :=
  length (filter (fun ds => Qgtb (fst ds) (snd ds))
                 (combine declarations actual_sums)).

Definition plotted_overestimation_rate (declarations actual_sums : list Q) : Q :=
  match declarations with
  | [] => 0
  | _ :: _ =>
      inject_Z (Z.of_nat (overestimations declarations actual_sums))
      / inject_Z (Z.of_nat (length declarations))
  end.

(** [sorted(items, key=lambda x: x[1], reverse=True)]: Python's sort is
    stable, also when reversed, so an item goes after the items with a
    strictly larger key and before the later items with an equal one. *)
Fixpoint insert_by_probability (x : Q * Q) (sorted : list (Q * Q)) : list (Q * Q) :=
  match sorted with
  | [] => [x]
  | y :: rest =>
      if Qgtb (snd y) (snd x)
      then y :: insert_by_probability x rest
      else x :: sorted
  end.

Definition sorted_by_probability (items : list (Q * Q)) : list (Q * Q) :=
  fold_right insert_by_probability [] items.

(** [visualize_model_prediction], lines 294-296: the five most probable
    actions of [action_probs.items()], with their probabilities. *)
Definition sorted_actions (action_probs : list (Q * Q)) : list (Q * Q) :=
  firstn 5 (sorted_by_probability action_probs).

(** The order of the bars: [x] may stand before [y]. *)
Definition at_least_as_probable (x y : Q * Q) : Prop := snd y <= snd x.

(* ================================================================== *)
(** ** The declaration metrics as the specification words them *)

Module Worded.

Definition ratio (s : GameState) : Q := selectaction s / sum s.

Definition has_positive_sum (s : GameState) : bool := Qgtb (sum s) 0.

Definition ratio_accurate (s : GameState) : bool :=
  Qle_bool (8 # 10) (ratio s) && Qle_bool (ratio s) (12 # 10).

Definition overestimates (s : GameState) : bool :=
  Qgtb (selectaction s) (sum s).

Definition mean (xs : list Q) : Q :=
  np_sum xs / inject_Z (Z.of_nat (length xs)).

Definition fraction (p : GameState -> bool) (states : list GameState) : Q :=
  inject_Z (Z.of_nat (length (filter p states)))
  / inject_Z (Z.of_nat (length states)).

(** (a) the mean ratio over the states with [actual > 0] *)
Definition mean_ratio (states : list GameState) : Q :=
  mean (map ratio (filter has_positive_sum states)).

(** (b) the fraction of states whose ratio lies in [0.8, 1.2] *)
Definition accurate_fraction (states : list GameState) : Q :=
  fraction ratio_accurate states.

(** (c) the fraction of states where the declared value exceeds the sum *)
Definition overestimation_fraction (states : list GameState) : Q :=
  fraction overestimates states.

(** The states the code counts: the two tests sit under the guard
    [if actual_sum > 0]. *)
Definition counted_accurate (s : GameState) : bool :=
  has_positive_sum s && ratio_accurate s.

Definition counted_overestimate (s : GameState) : bool :=
  has_positive_sum s && overestimates s.

End Worded.

(* ================================================================== *)
(** ** Concrete data used by the examples *)

Module Examples.

(** A world with exhausted generators, an empty buffer of the given
    capacity, an empty history and estimators that were never called. *)
Definition fresh_world (buffer_capacity : nat) : World :=
  {| random_state := []; np_random_state := [];
     reservoir_buffer := mk_buffer buffer_capacity [] 0;
     history := empty_history;
     strategy_fit_calls := []; advantage_fit_calls := [] |}.

(** An encoder producing a row of width 2 with a singleton leading axis. *)
Definition encode_row (s : GameState) : ndarray :=
  {| shape := [1%nat; 2%nat]; data := [selectaction s; sum s] |}.

(** An encoder producing a flat vector of width 2. *)
Definition encode_flat (s : GameState) : ndarray :=
  vector [selectaction s; sum s].

Definition constant_loss (inputs targets : ndarray) (epochs : nat) : Result Q :=
  Ok (1 # 2).

Definition silent_fit (states policy_targets : ndarray) (epochs : nat) : Result unit :=
  Ok tt.

Definition no_charts (h : MetricHistory) (pool : list GameState) : Result unit :=
  Ok tt.

(** One state declared exactly, one state with a zero sum. *)
Definition pool_with_zero_sum : list GameState :=
  [ mk_state [] 10 10; mk_state [] 5 0 ].

Definition pool_declared_exactly : list GameState :=
  [ mk_state [] 10 10 ].

Definition pool_zero_sums : list GameState :=
  [ mk_state [] 5 0; mk_state [] 3 0 ].

(** Two advantage observations under one information set. *)
Definition two_observations : list (string * list (ndarray * list Q)) :=
  [ ("infoset"%string,
     [ (encode_row (mk_state [] 10 10), [-3; -1; -5]);
       (encode_row (mk_state [] 5 0), [5; 5; 5]) ]) ].

End Examples.

(* ================================================================== *)
(** ** Frame conditions *)

(** Two worlds that differ at most in the state of the generators. *)
Definition untouched (w w' : World) : Prop :=
  reservoir_buffer w' = reservoir_buffer w /\
  history w' = history w /\
  strategy_fit_calls w' = strategy_fit_calls w /\
  advantage_fit_calls w' = advantage_fit_calls w.

(** A computation whose only effect is to consume random draws. *)
Definition random_only {A : Type} (m : M A) : Prop :=
  forall w, untouched w (snd (m w)).

(** A computation that calls neither estimator. *)
Definition fit_free {A : Type} (m : M A) : Prop :=
  forall w,
    strategy_fit_calls (snd (m w)) = strategy_fit_calls w /\
    advantage_fit_calls (snd (m w)) = advantage_fit_calls w.

(** [inputs] is what the reshape guard makes of the stacked [rows]. *)
Definition guarded_stack (input_size : nat) (rows : list ndarray) (inputs : ndarray)
    : Prop :=
  exists raw,
    np_array rows = Ok raw /\ reshape_guard input_size raw = Ok inputs.

(** The calls in [calls'] beyond those in [calls] all satisfy [P]. *)
Definition extended_by (P : FitCall -> Prop) (calls calls' : list FitCall) : Prop :=
  exists new, calls' = calls ++ new /\ Forall P new.

(** Between [w] and [w'] the strategy estimator only received calls
    satisfying [Ps] and the advantage estimator only calls satisfying
    [Pa]. *)
Definition fit_trace (Ps Pa : FitCall -> Prop) (w w' : World) : Prop :=
  extended_by Ps (strategy_fit_calls w) (strategy_fit_calls w') /\
  extended_by Pa (advantage_fit_calls w) (advantage_fit_calls w').

Definition never (c : FitCall) : Prop := False.

(** The strategy-estimator calls [update_strategy_network] may make:
    inputs built from [batch_size] sampled entries. *)
Definition strategy_call_guarded (input_size batch_size : nat) (c : FitCall) : Prop :=
  exists samples : list Entry,
    length samples = batch_size /\
    guarded_stack input_size (map fst samples) (fit_inputs c).

(** The advantage-estimator calls [evaluate_cfr_training] may make:
    inputs built from the encodings of a batch of 32 states. *)
Definition advantage_call_guarded
    (encode_state : GameState -> ndarray) (input_size : nat) (c : FitCall) : Prop :=
  exists batch_states : list GameState,
    length batch_states = 32%nat /\
    guarded_stack input_size (map encode_state batch_states) (fit_inputs c).

(* ================================================================== *)
(** ** Invariants *)

(** A probability vector: non-negative entries adding up to 1. *)
Definition is_simplex (p : list Q) : Prop :=
  Forall (fun x => 0 <= x) p /\ np_sum p == 1.

(** Every policy target stored in the buffer is a probability vector. *)
Definition buffer_holds_simplexes (w : World) : Prop :=
  Forall (fun entry => is_simplex (snd entry)) (buffer (reservoir_buffer w)).

(** A property of the world that a computation keeps, whether it
    returns or raises. *)
Definition preserves {A : Type} (I : World -> Prop) (m : M A) : Prop :=
  forall w, I w -> I (snd (m w)).

(** A triple for the monad: started in a world satisfying [P], the
    computation either returns [a] in a world satisfying [Q a] or raises
    [e] in a world satisfying [E e]. *)
Definition hoare {A : Type} (P : World -> Prop) (m : M A)
    (Q : A -> World -> Prop) (E : exn -> World -> Prop) : Prop :=
  forall w, P w ->
    match m w with
    | (Ok a, w') => Q a w'
    | (Raise e, w') => E e w'
    end.

(** The history after [k] complete iterations: epochs 0 .. k-1 and one
    value of each metric per epoch. *)
Definition logged (k : nat) (h : MetricHistory) : Prop :=
  epoch h = seq 0 k /\
  length (advantage_loss h) = k /\
  length (strategy_accuracy h) = k /\
  length (declaration_vs_sum_ratio h) = k /\
  length (win_rate h) = k.

(** [k] iterations logged and [c] calls received by the advantage
    estimator. *)
Definition progress (k c : nat) (w : World) : Prop :=
  logged k (history w) /\ length (advantage_fit_calls w) = c.

(** In every world the computation either returns a value satisfying
    [R] or raises an exception satisfying [X]. *)
Definition outcome {A : Type} (m : M A) (R : A -> Prop) (X : exn -> Prop) : Prop :=
  forall w,
    match m w with
    | (Ok a, _) => R a
    | (Raise e, _) => X e
    end.

Definition no_exception (e : exn) : Prop := False.

Definition in_unit_interval (x : Q) : Prop := 0 <= x /\ x < 1.

Definition is_rate (x : Q) : Prop := 0 <= x /\ x <= 1.

(** The arguments of one call of [log_metrics]. *)
Record LogCall : Type := mk_log_call {
  call_epoch : nat;
  call_advantage_loss : option Q;
  call_strategy_accuracy : option Q;
  call_declaration_vs_sum_ratio : option Q;
  call_win_rate : option Q
}.

(** A caller making the given calls of [log_metrics] one after the
    other. *)
Definition log_all (calls : list LogCall) : M unit :=
  for_each (fun c => log_metrics (call_epoch c) (call_advantage_loss c)
                       (call_strategy_accuracy c)
                       (call_declaration_vs_sum_ratio c) (call_win_rate c))
           calls.

(** The values that were passed, in order, among optional arguments. *)
Definition supplied (xs : list (option Q)) : list Q :=
  flat_map (fun x => match x with Some v => [v] | None => [] end) xs.

(** What can make an iteration of the training loop raise [e]: an empty
    pool, a batch of 32 pool states whose encodings do not stack or do
    not pass the reshape, or the advantage estimator itself. *)
Definition iteration_failure
    (encode_state : GameState -> ndarray) (input_size : nat)
    (advantage_net_fit : ndarray -> ndarray -> nat -> Result Q)
    (pool : list GameState) (e : exn) : Prop :=
  (e = ValueError /\ pool = []) \/
  (exists batch,
     length batch = 32%nat /\
     Forall (fun s => In s pool) batch /\
     (np_array (map encode_state batch) = Raise e \/
      exists raw,
        np_array (map encode_state batch) = Ok raw /\
        reshape_guard input_size raw = Raise e)) \/
  (exists inputs targets, advantage_net_fit inputs targets 1%nat = Raise e).

(** A call of the advantage estimator as [evaluate_cfr_training] makes
    it: one epoch, a full 32-by-141 array of numbers in [0, 1) as
    targets, inputs that are not of rank 3. *)
Definition dummy_target_call (c : FitCall) : Prop :=
  fit_epochs c = 1%nat /\
  shape (fit_targets c) = [32%nat; 141%nat] /\
  length (data (fit_targets c)) = (32 * 141)%nat /\
  Forall in_unit_interval (data (fit_targets c)) /\
  length (shape (fit_inputs c)) <> 3%nat.

(** The simulated strategy accuracy is [random.random() * 0.2 + 0.6]. *)
Definition simulated_accuracy (x : Q) : Prop := 6 # 10 <= x /\ x < 8 # 10.

(** Every logged strategy accuracy is a simulated one and every logged
    win rate a rate. *)
Definition plausible_history (w : World) : Prop :=
  Forall simulated_accuracy (strategy_accuracy (history w)) /\
  Forall is_rate (win_rate (history w)).

(* ================================================================== *)
(** ** Batches of one shape *)

(** An entry whose state has shape [sh] and whose vector has [n]
    entries. *)
Definition uniform_entry (sh : list nat) (n : nat) (entry : Entry) : Prop :=
  shape (fst entry) = sh /\ length (snd entry) = n.

Definition buffer_uniform (sh : list nat) (n : nat) (w : World) : Prop :=
  Forall (uniform_entry sh n) (buffer (reservoir_buffer w)).

Definition observations_uniform (sh : list nat) (n : nat)
    (advantages : list (string * list (ndarray * list Q))) : Prop :=
  Forall (fun item => Forall (uniform_entry sh n) (snd item)) advantages.

(** The row-major data of stacked rows. *)
Definition stacked_data (rows : list ndarray) : list Q := concat (map data rows).

(** The shape in which [rows] stacked arrays of shape [sh] leave the
    reshape guard, when they leave it. *)
Definition guarded_shape (input_size rows : nat) (sh : list nat) : list nat :=
  if (length sh =? 2)%nat
  then [(rows * size_of sh / input_size)%nat; input_size]
  else rows :: sh.

(** numpy accepts the reshape of [rows] stacked arrays of shape [sh]: the
    stack is not of rank 3, or its elements fill rows of [input_size]. *)
Definition fills_rows (input_size rows : nat) (sh : list nat) : Prop :=
  length sh = 2%nat ->
  input_size <> 0%nat /\ ((rows * size_of sh) mod input_size = 0)%nat.

(** numpy refuses to assemble the sampled entries into a batch: the
    states or the policy targets do not stack, or the stacked states do
    not pass the reshape. *)
Definition batch_refused (input_size : nat) (samples : list Entry) : Prop :=
  np_array (map fst samples) = Raise ValueError \/
  np_array (map (fun s => vector (snd s)) samples) = Raise ValueError \/
  exists raw,
    np_array (map fst samples) = Ok raw /\
    reshape_guard input_size raw = Raise ValueError.




(* ================================================================== *)
(** ** Facts about the numeric helpers *)

Section NumericFacts.

Lemma Qgtb_true (x y : Q) : Qgtb x y = true <-> y < x.
Proof.
  unfold Qgtb. rewrite (Qgt_alt x y).
  destruct (x ?= y); split; intro H; congruence.
Qed.

Lemma Qgtb_false (x y : Q) : Qgtb x y = false <-> x <= y.
Proof.
  unfold Qgtb. rewrite Qle_alt.
  destruct (x ?= y); split; intro H; congruence.
Qed.

Lemma epsilon_pos : 0 < epsilon.
Proof. reflexivity. Qed.

(** The running minimum is below its seed and below every element folded in. *)
Lemma fold_min_le_seed (xs : list Q) (x : Q) : fold_left Qmin xs x <= x.
Proof.
  revert x. induction xs as [|y ys IH]; intro x; simpl.
  - apply Qle_refl.
  - eapply Qle_trans; [apply IH | apply Q.le_min_l].
Qed.

Lemma fold_min_le_elem (xs : list Q) (x y : Q) :
  In y xs -> fold_left Qmin xs x <= y.
Proof.
  revert x. induction xs as [|z zs IH]; intros x Hin; simpl in *.
  - contradiction.
  - destruct Hin as [-> | Hin].
    + eapply Qle_trans; [apply fold_min_le_seed | apply Q.le_min_r].
    + apply IH, Hin.
Qed.

Lemma np_min_lower_bound (v : list Q) (m : Q) :
  np_min v = Ok m -> forall a, In a v -> m <= a.
Proof.
  destruct v as [|x xs]; simpl; intros Hm a Hin; [discriminate|].
  injection Hm as <-.
  destruct Hin as [<- | Hin].
  - apply fold_min_le_seed.
  - apply fold_min_le_elem, Hin.
Qed.

Lemma np_min_nonempty (v : list Q) : v <> [] -> exists m, np_min v = Ok m.
Proof.
  destruct v as [|x xs]; intro H; [congruence | simpl; eauto].
Qed.

(** [np.sum] unrolled from the left, one element at a time. *)
Lemma fold_plus_acc (v : list Q) (a : Q) :
  fold_left Qplus v a == a + np_sum v.
Proof.
  unfold np_sum. revert a. induction v as [|x xs IH]; intro a; simpl.
  - ring.
  - rewrite (IH (a + x)), (IH (0 + x)). ring.
Qed.

Lemma np_sum_cons (x : Q) (xs : list Q) : np_sum (x :: xs) == x + np_sum xs.
Proof.
  unfold np_sum at 1. simpl. rewrite fold_plus_acc. ring.
Qed.

Lemma np_sum_nil : np_sum [] = 0.
Proof. reflexivity. Qed.

Lemma np_sum_scale (v : list Q) (s : Q) :
  np_sum (map (fun x => x / s) v) == np_sum v / s.
Proof.
  induction v as [|x xs IH]; simpl.
  - rewrite np_sum_nil. unfold Qdiv. ring.
  - rewrite !np_sum_cons, IH. unfold Qdiv. ring.
Qed.

Lemma np_sum_lower (v : list Q) (c : Q) :
  Forall (fun x => c <= x) v ->
  inject_Z (Z.of_nat (length v)) * c <= np_sum v.
Proof.
  induction 1 as [|x xs Hx Hxs IH].
  - rewrite np_sum_nil. change (inject_Z (Z.of_nat (length (@nil Q)))) with 0. lra.
  - rewrite np_sum_cons. cbn [length].
    rewrite Nat2Z.inj_succ, <- Z.add_1_r, inject_Z_plus.
    change (inject_Z 1) with 1. lra.
Qed.

Lemma shifted_ge_epsilon (v : list Q) (m : Q) :
  np_min v = Ok m ->
  Forall (fun s => epsilon <= s) (shifted_advantages v m).
Proof.
  intro Hm. unfold shifted_advantages.
  apply Forall_forall. intros s Hs.
  apply in_map_iff in Hs as (a & <- & Ha).
  pose proof (np_min_lower_bound v m Hm a Ha). lra.
Qed.

Lemma shifted_sum_pos (v : list Q) (m : Q) :
  np_min v = Ok m -> 0 < np_sum (shifted_advantages v m).
Proof.
  intro Hm.
  pose proof (np_sum_lower _ _ (shifted_ge_epsilon v m Hm)) as Hlow.
  unfold shifted_advantages in Hlow at 1. rewrite length_map in Hlow.
  destruct v as [|x xs]; [discriminate|].
  eapply Qlt_le_trans; [|exact Hlow].
  apply Qmult_lt_0_compat; [|apply epsilon_pos].
  change 0 with (inject_Z 0). rewrite <- Zlt_Qlt. cbn [length]. lia.
Qed.

(** On a non-empty vector the normalised branch is the one executed. *)
Lemma regret_match_branch_nonempty (v : list Q) :
  v <> [] ->
  exists m,
    np_min v = Ok m /\
    regret_match_branch v =
      Ok (Normalized,
          map (fun s => s / np_sum (shifted_advantages v m))
              (shifted_advantages v m)).
Proof.
  intro Hne. destruct (np_min_nonempty v Hne) as [m Hm].
  exists m. split; [exact Hm|].
  unfold regret_match_branch. rewrite Hm. cbv zeta.
  pose proof (shifted_sum_pos v m Hm) as Hpos.
  apply Qgtb_true in Hpos. rewrite Hpos. reflexivity.
Qed.

(** [np.min] returns an entry of the vector. *)
Lemma fold_min_in (xs : list Q) (x : Q) : In (fold_left Qmin xs x) (x :: xs).
Proof.
  revert x. induction xs as [|y ys IH]; intro x; simpl.
  - now left.
  - destruct (IH (Qmin x y)) as [H | H].
    + rewrite <- H. unfold Qmin, GenericMinMax.gmin.
      destruct (x ?= y); auto.
    + auto.
Qed.

Lemma np_min_in (v : list Q) (m : Q) : np_min v = Ok m -> In m v.
Proof.
  destruct v as [|x xs]; simpl; intro H; [discriminate|].
  injection H as <-. apply fold_min_in.
Qed.

Lemma fold_min_translate (xs : list Q) (x y c : Q) :
  y == x + c ->
  fold_left Qmin (map (fun a => a + c) xs) y == fold_left Qmin xs x + c.
Proof.
  revert x y. induction xs as [|z zs IH]; intros x y Hy; simpl.
  - exact Hy.
  - apply IH. rewrite Hy. apply Q.plus_min_distr_r.
Qed.

Lemma np_sum_pointwise (xs ys : list Q) :
  Forall2 Qeq xs ys -> np_sum xs == np_sum ys.
Proof.
  induction 1 as [|x y xs ys Hxy _ IH].
  - reflexivity.
  - rewrite !np_sum_cons, Hxy, IH. reflexivity.
Qed.

Lemma np_sum_constant (xs : list Q) (e : Q) :
  Forall (fun x => x == e) xs ->
  np_sum xs == inject_Z (Z.of_nat (length xs)) * e.
Proof.
  induction 1 as [|x xs Hx _ IH].
  - rewrite np_sum_nil. change (inject_Z (Z.of_nat (length (@nil Q)))) with 0. ring.
  - cbn [length].
    rewrite np_sum_cons, IH, Nat2Z.inj_succ, <- Z.add_1_r, inject_Z_plus.
    change (inject_Z 1) with 1.
    transitivity (e + inject_Z (Z.of_nat (length xs)) * e); [|ring].
    apply Qplus_comp; [exact Hx | reflexivity].
Qed.

Lemma Forall2_map_both {A B : Type} (R : B -> B -> Prop) (f g : A -> B) (xs : list A) :
  (forall x, In x xs -> R (f x) (g x)) ->
  Forall2 R (map f xs) (map g xs).
Proof.
  induction xs as [|x xs IH]; intro H; simpl; constructor.
  - apply H. now left.
  - apply IH. intros y Hy. apply H. now right.
Qed.

Lemma Forall2_scale (xs ys : list Q) (s t : Q) :
  Forall2 Qeq xs ys -> s == t ->
  Forall2 Qeq (map (fun x => x / s) xs) (map (fun y => y / t) ys).
Proof.
  intros H Hst. induction H as [|x y xs ys Hxy _ IH]; simpl; constructor.
  - rewrite Hxy, Hst. reflexivity.
  - exact IH.
Qed.

End NumericFacts.

(* ================================================================== *)
(** ** The regret-matching transform *)

Section RegretMatchingProperties.



(** C9. On every non-empty advantage vector the sum of the shifted
    entries is strictly positive, so the normalising branch is the one
    executed and the uniform fallback is not. *)
Theorem shifted_sum_strictly_positive (v : list Q) :
  v <> [] ->
  exists min_adv,
    np_min v = Ok min_adv /\
    0 < np_sum (shifted_advantages v min_adv) /\
    (exists policy, regret_match_branch v = Ok (Normalized, policy)) /\
    (forall policy, regret_match_branch v <> Ok (UniformFallback, policy)).
Proof.
  intro Hne.
  destruct (regret_match_branch_nonempty v Hne) as (m & Hm & Hbr).
  exists m. split; [exact Hm|]. split; [apply shifted_sum_pos, Hm|].
  split.
  - eexists. exact Hbr.
  - intros policy Hp. rewrite Hbr in Hp. discriminate.
Qed.

Lemma shifted_sum_strictly_positive_witness :
  [0; 0] <> [] /\
  exists min_adv,
    np_min [0; 0] = Ok min_adv /\
    0 < np_sum (shifted_advantages [0; 0] min_adv) /\
    (exists policy, regret_match_branch [0; 0] = Ok (Normalized, policy)) /\
    (forall policy, regret_match_branch [0; 0] <> Ok (UniformFallback, policy)).
Proof.
  split; [discriminate | apply (shifted_sum_strictly_positive [0; 0]); discriminate].
Defined.



(** C8. An advantage vector whose entries are all equal is turned into
    the uniform distribution over its length; [[5, 5, 5]] gives
    [[1/3, 1/3, 1/3]]. *)
Theorem regret_match_all_equal (v : list Q) (c : Q) :
  v <> [] ->
  Forall (fun a => a == c) v ->
  exists policy,
    regret_match v = Ok policy /\
    length policy = length v /\
    Forall (fun p => p == 1 / inject_Z (Z.of_nat (length v))) policy.
Proof.
  intros Hne Hall.
  destruct (regret_match_branch_nonempty v Hne) as (m & Hm & Hbr).
  assert (Hmc : m == c).
  { rewrite Forall_forall in Hall. apply Hall, np_min_in, Hm. }
  assert (Hsh : Forall (fun s => s == epsilon) (shifted_advantages v m)).
  { unfold shifted_advantages. apply Forall_forall. intros s Hs.
    apply in_map_iff in Hs as (a & <- & Ha).
    rewrite Forall_forall in Hall. specialize (Hall a Ha). simpl in Hall.
    rewrite Hall, Hmc. ring. }
  pose proof (np_sum_constant _ _ Hsh) as Hsum.
  assert (Hlen : length (shifted_advantages v m) = length v)
    by (unfold shifted_advantages; apply length_map).
  rewrite Hlen in Hsum.
  assert (Hn : 0 < inject_Z (Z.of_nat (length v))).
  { change 0 with (inject_Z 0). rewrite <- Zlt_Qlt.
    destruct v; [congruence | cbn [length]; lia]. }
  eexists. unfold regret_match. rewrite Hbr. split; [reflexivity|].
  split; [now rewrite length_map|].
  apply Forall_forall. intros p Hp.
  apply in_map_iff in Hp as (s & <- & Hs).
  rewrite Forall_forall in Hsh. specialize (Hsh s Hs). simpl in Hsh.
  rewrite Hsh, Hsum. field.
  split; [lra | discriminate].
Qed.

Lemma regret_match_all_equal_witness :
  [5; 5; 5] <> [] /\
  Forall (fun a => a == 5) [5; 5; 5] /\
  exists policy,
    regret_match [5; 5; 5] = Ok policy /\
    length policy = 3%nat /\
    Forall (fun p => p == 1 / 3) policy.
Proof.
  split; [discriminate|].
  assert (Hall : Forall (fun a => a == 5) [5; 5; 5])
    by (repeat constructor; reflexivity).
  split; [exact Hall|].
  apply (regret_match_all_equal [5; 5; 5] 5); [discriminate | exact Hall].
Defined.

(** C10. Adding the same constant to every entry of a non-empty
    advantage vector leaves the emitted policy unchanged, entry by
    entry. *)
Theorem regret_match_translation_invariant (v : list Q) (c : Q) :
  v <> [] ->
  exists policy shifted_policy,
    regret_match v = Ok policy /\
    regret_match (map (fun a => a + c) v) = Ok shifted_policy /\
    Forall2 Qeq shifted_policy policy.
Proof.
  intro Hne.
  assert (Hne' : map (fun a => a + c) v <> [])
    by (destruct v; [congruence | discriminate]).
  destruct (regret_match_branch_nonempty v Hne) as (m & Hm & Hbr).
  destruct (regret_match_branch_nonempty _ Hne') as (m' & Hm' & Hbr').
  assert (Hmm : m' == m + c).
  { destruct v as [|x xs]; [congruence|]. simpl in Hm, Hm'.
    injection Hm as <-. injection Hm' as <-.
    apply fold_min_translate. reflexivity. }
  assert (Hsh : Forall2 Qeq (shifted_advantages (map (fun a => a + c) v) m')
                            (shifted_advantages v m)).
  { unfold shifted_advantages. rewrite map_map.
    apply Forall2_map_both. intros a _. rewrite Hmm. ring. }
  do 2 eexists. unfold regret_match. rewrite Hbr, Hbr'.
  split; [reflexivity|]. split; [reflexivity|].
  apply Forall2_scale; [exact Hsh | apply np_sum_pointwise, Hsh].
Qed.

Lemma regret_match_translation_invariant_witness :
  [-3; -1; -5] <> [] /\
  exists policy shifted_policy,
    regret_match [-3; -1; -5] = Ok policy /\
    regret_match (map (fun a => a + 8) [-3; -1; -5]) = Ok shifted_policy /\
    Forall2 Qeq shifted_policy policy.
Proof.
  split; [discriminate|].
  apply (regret_match_translation_invariant [-3; -1; -5] 8); discriminate.
Defined.

End RegretMatchingProperties.

(* ================================================================== *)
(** ** Computations that only consume randomness *)

Section FrameFacts.

Lemma untouched_refl (w : World) : untouched w w.
Proof. repeat split. Qed.

Lemma untouched_trans (w1 w2 w3 : World) :
  untouched w1 w2 -> untouched w2 w3 -> untouched w1 w3.
Proof.
  intros (a1 & a2 & a3 & a4) (b1 & b2 & b3 & b4).
  repeat split; congruence.
Qed.

Lemma random_only_ret {A : Type} (a : A) : random_only (ret a).
Proof. intro w. apply untouched_refl. Qed.

Lemma random_only_raise {A : Type} (e : exn) : random_only (@raise A e).
Proof. intro w. apply untouched_refl. Qed.

Lemma random_only_lift {A : Type} (r : Result A) : random_only (lift r).
Proof. intro w. apply untouched_refl. Qed.

Lemma random_only_get : random_only get.
Proof. intro w. apply untouched_refl. Qed.

Lemma random_only_bind {A B : Type} (m : M A) (k : A -> M B) :
  random_only m -> (forall a, random_only (k a)) -> random_only (bind m k).
Proof.
  intros Hm Hk w. unfold bind. specialize (Hm w).
  destruct (m w) as [[a | e] w1]; simpl in Hm.
  - eapply untouched_trans; [exact Hm | apply Hk].
  - exact Hm.
Qed.

Lemma random_only_random_below (n : nat) : random_only (random_below n).
Proof.
  intro w. unfold random_below. destruct (next_draw n (random_state w)).
  repeat split.
Qed.

Lemma random_only_np_random_below (n : nat) : random_only (np_random_below n).
Proof.
  intro w. unfold np_random_below. destruct (next_draw n (np_random_state w)).
  repeat split.
Qed.

Lemma random_only_map_m {A B : Type} (f : A -> M B) (xs : list A) :
  (forall x, random_only (f x)) -> random_only (map_m f xs).
Proof.
  intro Hf. induction xs as [|x xs IH]; simpl.
  - apply random_only_ret.
  - apply random_only_bind; [apply Hf | intro y].
    apply random_only_bind; [exact IH | intro ys]. apply random_only_ret.
Qed.

Lemma random_only_getitem {A : Type} (xs : list A) (i : nat) :
  random_only (getitem xs i).
Proof.
  unfold getitem. destruct (nth_error xs i);
    [apply random_only_ret | apply random_only_raise].
Qed.

Lemma random_only_draw {A : Type} (k : nat) (pool : list A) :
  random_only (draw_without_replacement k pool).
Proof.
  revert pool. induction k as [|k IH]; intro pool; simpl.
  - apply random_only_ret.
  - apply random_only_bind; [apply random_only_random_below | intro i].
    destruct (nth_error pool i); [|apply random_only_ret].
    apply random_only_bind; [apply IH | intro]. apply random_only_ret.
Qed.

Lemma random_only_random_sample {A : Type} (population : list A) (k : Z) :
  random_only (random_sample population k).
Proof.
  unfold random_sample.
  destruct ((k <? 0)%Z || (Z.of_nat (length population) <? k)%Z);
    [apply random_only_raise | apply random_only_draw].
Qed.

Lemma random_only_np_random_choice (a size : nat) :
  random_only (np_random_choice a size).
Proof.
  unfold np_random_choice.
  destruct ((a =? 0)%nat && negb (size =? 0)%nat); [apply random_only_raise|].
  apply random_only_map_m. intro. apply random_only_np_random_below.
Qed.

Lemma random_only_np_random_rand (rows cols : nat) :
  random_only (np_random_rand rows cols).
Proof.
  unfold np_random_rand.
  apply random_only_bind; [|intro; apply random_only_ret].
  apply random_only_map_m. intro. apply random_only_np_random_below.
Qed.

Lemma random_only_random_random : random_only random_random.
Proof.
  unfold random_random.
  apply random_only_bind; [apply random_only_random_below | intro].
  apply random_only_ret.
Qed.

Lemma random_only_evaluate_declaration_accuracy
    (encode_state : GameState -> ndarray) (test_states : list GameState) (n : Z) :
  random_only (evaluate_declaration_accuracy encode_state test_states n).
Proof.
  unfold evaluate_declaration_accuracy.
  apply random_only_bind; [apply random_only_random_sample | intro].
  apply random_only_ret.
Qed.

Lemma random_only_play_games (opponent : string) (n wins : nat) :
  random_only (play_games opponent n wins).
Proof.
  revert wins. induction n as [|n IH]; intro wins; simpl.
  - apply random_only_ret.
  - apply random_only_bind; [apply random_only_random_random | intro r].
    apply random_only_bind; [apply random_only_get | intro w']. apply IH.
Qed.

Lemma random_only_evaluate_win_rate (n : nat) (opponent : string) :
  random_only (evaluate_win_rate n opponent).
Proof.
  unfold evaluate_win_rate.
  apply random_only_bind; [apply random_only_play_games | intro wins].
  destruct (n =? 0)%nat; [apply random_only_raise | apply random_only_ret].
Qed.

End FrameFacts.

(* ================================================================== *)
(** ** Sampling without replacement *)

Section SamplingFacts.

Lemma next_draw_below (bound : nat) (stream : list nat) :
  (0 < bound)%nat -> (fst (next_draw bound stream) < bound)%nat.
Proof.
  intro Hb. destruct stream as [|r rest]; simpl; [exact Hb|].
  apply Nat.mod_upper_bound. lia.
Qed.

Lemma remove_at_length {A : Type} (i : nat) (xs : list A) :
  (i < length xs)%nat -> length (remove_at i xs) = (length xs - 1)%nat.
Proof.
  intro Hi. unfold remove_at.
  rewrite length_app, length_firstn, length_skipn. lia.
Qed.

Lemma remove_at_incl {A : Type} (i : nat) (xs : list A) : incl (remove_at i xs) xs.
Proof.
  intros x Hx. unfold remove_at in Hx. apply in_app_or in Hx as [Hx | Hx].
  - rewrite <- (firstn_skipn i xs). apply in_or_app. now left.
  - rewrite <- (firstn_skipn (S i) xs). apply in_or_app. now right.
Qed.

(** Drawing at most as many items as the pool holds succeeds and returns
    that many items of the pool. *)
Lemma draw_without_replacement_ok {A : Type} (k : nat) (pool : list A) (w : World) :
  (k <= length pool)%nat ->
  exists drawn w',
    draw_without_replacement k pool w = (Ok drawn, w') /\
    length drawn = k /\
    incl drawn pool.
Proof.
  revert pool w. induction k as [|k IH]; intros pool w Hk; simpl.
  - exists [], w. repeat split. intros x [].
  - unfold bind at 1. unfold random_below.
    pose proof (next_draw_below (length pool) (random_state w)) as Hlt.
    destruct (next_draw (length pool) (random_state w)) as [i rest].
    simpl in Hlt. assert (Hi : (i < length pool)%nat) by (apply Hlt; lia).
    destruct (nth_error pool i) as [x|] eqn:Hx.
    2:{ apply nth_error_None in Hx. lia. }
    destruct (IH (remove_at i pool) (set_random_state rest w))
      as (drawn & w' & Hd & Hlen & Hincl).
    { rewrite remove_at_length by exact Hi. lia. }
    exists (x :: drawn), w'. unfold bind. rewrite Hd. simpl.
    repeat split; [now f_equal|].
    intros y [<- | Hy].
    + eapply nth_error_In, Hx.
    + apply (remove_at_incl i pool), Hincl, Hy.
Qed.

Lemma random_sample_ok {A : Type} (population : list A) (k : Z) (w : World) :
  (0 <= k <= Z.of_nat (length population))%Z ->
  exists drawn w',
    random_sample population k w = (Ok drawn, w') /\
    Z.of_nat (length drawn) = k /\
    incl drawn population.
Proof.
  intros [Hlo Hhi]. unfold random_sample.
  replace ((k <? 0)%Z || (Z.of_nat (length population) <? k)%Z) with false
    by (symmetry; apply orb_false_iff; split; apply Z.ltb_ge; lia).
  destruct (draw_without_replacement_ok (Z.to_nat k) population w)
    as (drawn & w' & Hd & Hlen & Hincl); [lia|].
  exists drawn, w'. repeat split; [exact Hd | lia | exact Hincl].
Qed.

End SamplingFacts.

(* ================================================================== *)
(** ** evaluate_declaration_accuracy *)

Section DeclarationAccuracy.

Import Worded.

Variable encode_state : GameState -> ndarray.

(** The loop body, phrased with the named tests. *)
Lemma tally_state_unfold (t : Tally) (s : GameState) :
  tally_state encode_state t s =
    if has_positive_sum s
    then mk_tally
           (if ratio_accurate s
            then S (correct_declarations t) else correct_declarations t)
           (total_ratio t + ratio s)
           (if overestimates s
            then S (overestimation_count t) else overestimation_count t)
    else t.
Proof. reflexivity. Qed.

(** What the three accumulators hold after the loop. *)
Lemma tally_fold (states : list GameState) (t : Tally) :
  correct_declarations (fold_left (tally_state encode_state) states t)
    = (correct_declarations t + length (filter counted_accurate states))%nat /\
  overestimation_count (fold_left (tally_state encode_state) states t)
    = (overestimation_count t + length (filter counted_overestimate states))%nat /\
  total_ratio (fold_left (tally_state encode_state) states t)
    == total_ratio t + np_sum (map ratio (filter has_positive_sum states)).
Proof.
  revert t. induction states as [|s rest IH]; intro t.
  - cbn [fold_left filter map length]. rewrite np_sum_nil.
    split; [lia | split; [lia | ring]].
  - cbn [fold_left]. destruct (IH (tally_state encode_state t s)) as (Hc & Ho & Hr).
    rewrite Hc, Ho, Hr. clear Hc Ho Hr IH.
    rewrite tally_state_unfold. cbn [filter].
    unfold counted_accurate at 2, counted_overestimate at 2.
    destruct (has_positive_sum s); cbn [andb].
    + cbn [correct_declarations overestimation_count total_ratio].
      split; [|split].
      * destruct (ratio_accurate s); cbn [length]; lia.
      * destruct (overestimates s); cbn [length]; lia.
      * cbn [map]. rewrite np_sum_cons. ring.
    + split; [reflexivity | split; reflexivity].
Qed.

Lemma filter_all {A : Type} (p : A -> bool) (xs : list A) :
  Forall (fun x => p x = true) xs -> filter p xs = xs.
Proof.
  induction 1 as [|x xs Hx _ IH]; simpl; [reflexivity|].
  rewrite Hx, IH. reflexivity.
Qed.

Lemma filter_none {A : Type} (p : A -> bool) (xs : list A) :
  Forall (fun x => p x = false) xs -> filter p xs = [].
Proof.
  induction 1 as [|x xs Hx _ IH]; simpl; [reflexivity|].
  rewrite Hx. exact IH.
Qed.

Lemma filter_ext_on {A : Type} (p q : A -> bool) (xs : list A) :
  Forall (fun x => p x = q x) xs -> filter p xs = filter q xs.
Proof.
  induction 1 as [|x xs Hx _ IH]; simpl; [reflexivity|].
  rewrite Hx, IH. reflexivity.
Qed.

(** The returned triple, for a sample of the size the code divides by. *)
Lemma declaration_metrics_spec (sampled : list GameState) :
  sampled <> [] ->
  exists avg_ratio accuracy overestimation_rate,
    declaration_metrics encode_state sampled (Z.of_nat (length sampled))
      = (avg_ratio, accuracy, overestimation_rate) /\
    avg_ratio == np_sum (map ratio (filter has_positive_sum sampled))
                 / inject_Z (Z.of_nat (length sampled)) /\
    accuracy == fraction counted_accurate sampled /\
    overestimation_rate == fraction counted_overestimate sampled.
Proof.
  intro Hne.
  assert (Hpos : (0 <? Z.of_nat (length sampled))%Z = true).
  { apply Z.ltb_lt. destruct sampled; [congruence | cbn [length]; lia]. }
  destruct (tally_fold sampled empty_tally) as (Hc & Ho & Hr).
  unfold declaration_metrics, count_over. cbv zeta. rewrite Hpos.
  do 3 eexists. split; [reflexivity|].
  rewrite Hc, Ho, Hr. unfold fraction. simpl (correct_declarations empty_tally).
  simpl (overestimation_count empty_tally). simpl (total_ratio empty_tally).
  rewrite !Nat.add_0_l. repeat split; try reflexivity.
  apply Qmult_comp; [ring | reflexivity].
Qed.

Lemma sample_size_bounds (test_states : list GameState) (num_samples : Z) :
  (0 <= num_samples)%Z ->
  (0 <= sample_size test_states num_samples <= Z.of_nat (length test_states))%Z.
Proof. unfold sample_size. lia. Qed.

Lemma positive_sum_iff (s : GameState) : has_positive_sum s = true <-> 0 < sum s.
Proof. unfold has_positive_sum. apply Qgtb_true. Qed.

(** C2, in the form the code satisfies. On a non-empty sample the call
    returns, without raising, (a) the sum of declared/actual over the sampled states with
    actual > 0 divided by the number of sampled states, (b) the fraction
    of sampled states that have actual > 0 and a ratio in [0.8, 1.2],
    (c) the fraction of sampled states that have actual > 0 and a
    declared value above it.  When every sampled state has actual > 0
    these are the mean ratio, the fraction with an accurate ratio and the
    fraction of overestimating states. *)
Theorem evaluate_declaration_accuracy_metrics
    (test_states : list GameState) (num_samples : Z) (w : World) :
  (0 < num_samples)%Z ->
  test_states <> [] ->
  exists sampled w' avg_ratio accuracy overestimation_rate,
    random_sample test_states (sample_size test_states num_samples) w
      = (Ok sampled, w') /\
    sampled <> [] /\
    incl sampled test_states /\
    evaluate_declaration_accuracy encode_state test_states num_samples w
      = (Ok (avg_ratio, accuracy, overestimation_rate), w') /\
    avg_ratio == np_sum (map ratio (filter has_positive_sum sampled))
                 / inject_Z (Z.of_nat (length sampled)) /\
    accuracy == fraction counted_accurate sampled /\
    overestimation_rate == fraction counted_overestimate sampled /\
    (Forall (fun s => 0 < sum s) sampled ->
       avg_ratio == mean_ratio sampled /\
       accuracy == accurate_fraction sampled /\
       overestimation_rate == overestimation_fraction sampled).
Proof.
  intros Hn Hne.
  destruct (random_sample_ok test_states (sample_size test_states num_samples) w)
    as (sampled & w' & Hs & Hlen & Hincl).
  { apply sample_size_bounds. lia. }
  assert (Hsne : sampled <> []).
  { intros ->. simpl in Hlen. unfold sample_size in Hlen.
    destruct test_states; [congruence | cbn [length] in Hlen; lia]. }
  destruct (declaration_metrics_spec sampled Hsne) as (a & b & c & Hm & Ha & Hb & Hc).
  exists sampled, w', a, b, c.
  split; [exact Hs|]. split; [exact Hsne|]. split; [exact Hincl|].
  split.
  { unfold evaluate_declaration_accuracy, bind. rewrite Hs.
    unfold ret. rewrite <- Hlen, Hm. reflexivity. }
  split; [exact Ha|]. split; [exact Hb|]. split; [exact Hc|].
  intro Hall.
  assert (Hp : Forall (fun s => has_positive_sum s = true) sampled).
  { eapply Forall_impl; [|exact Hall]. intros s Hs0. now apply positive_sum_iff. }
  split; [|split].
  - rewrite Ha. unfold mean_ratio, mean.
    rewrite (filter_all _ _ Hp), length_map. reflexivity.
  - rewrite Hb. unfold accurate_fraction, fraction.
    rewrite (filter_ext_on counted_accurate ratio_accurate); [reflexivity|].
    eapply Forall_impl; [|exact Hp]. intros s Hs0.
    unfold counted_accurate. now rewrite Hs0.
  - rewrite Hc. unfold overestimation_fraction, fraction.
    rewrite (filter_ext_on counted_overestimate overestimates); [reflexivity|].
    eapply Forall_impl; [|exact Hp]. intros s Hs0.
    unfold counted_overestimate. now rewrite Hs0.
Qed.

(** C5. With a non-negative [num_samples] the call returns without
    raising; the triple is exactly (0, 0, 0) when the sample is empty,
    which is the case for an empty state list, and its three components
    are 0 when no sampled state has a sum above 0. *)
Theorem evaluate_declaration_accuracy_zero_defaults
    (test_states : list GameState) (num_samples : Z) (w : World) :
  (0 <= num_samples)%Z ->
  exists sampled w' avg_ratio accuracy overestimation_rate,
    random_sample test_states (sample_size test_states num_samples) w
      = (Ok sampled, w') /\
    evaluate_declaration_accuracy encode_state test_states num_samples w
      = (Ok (avg_ratio, accuracy, overestimation_rate), w') /\
    (test_states = [] -> sampled = []) /\
    (sampled = [] -> (avg_ratio, accuracy, overestimation_rate) = (0, 0, 0)) /\
    (Forall (fun s => ~ 0 < sum s) sampled ->
       avg_ratio == 0 /\ accuracy == 0 /\ overestimation_rate == 0).
Proof.
  intro Hn.
  destruct (random_sample_ok test_states (sample_size test_states num_samples) w)
    as (sampled & w' & Hs & Hlen & Hincl).
  { apply sample_size_bounds, Hn. }
  exists sampled, w'.
  destruct (declaration_metrics encode_state sampled (Z.of_nat (length sampled)))
    as [[a b] c] eqn:Hm.
  exists a, b, c.
  split; [exact Hs|]. split.
  { unfold evaluate_declaration_accuracy, bind. rewrite Hs.
    unfold ret. rewrite <- Hlen, Hm. reflexivity. }
  split; [|split].
  - intros ->. destruct sampled as [|s rest]; [reflexivity|].
    exfalso. apply (Hincl s). now left.
  - intros ->. simpl in Hm. symmetry. exact Hm.
  - intro Hnone. destruct sampled as [|s rest].
    + simpl in Hm. injection Hm as <- <- <-. repeat split; reflexivity.
    + destruct (declaration_metrics_spec (s :: rest)) as (a' & b' & c' & Hm' & Ha & Hb & Hc);
        [discriminate|].
      rewrite Hm in Hm'. injection Hm' as <- <- <-.
      assert (Hp : Forall (fun x => has_positive_sum x = false) (s :: rest)).
      { eapply Forall_impl; [|exact Hnone]. intros x Hx.
        destruct (has_positive_sum x) eqn:E; [|reflexivity].
        apply positive_sum_iff in E. contradiction. }
      rewrite Ha, Hb, Hc. unfold fraction.
      rewrite (filter_none _ _ Hp).
      rewrite (filter_none counted_accurate), (filter_none counted_overestimate).
      * cbn [map length]. rewrite np_sum_nil.
        change (inject_Z (Z.of_nat 0)) with 0. unfold Qdiv.
        repeat split; ring.
      * eapply Forall_impl; [|exact Hp]. intros x Hx.
        unfold counted_overestimate. now rewrite Hx.
      * eapply Forall_impl; [|exact Hp]. intros x Hx.
        unfold counted_accurate. now rewrite Hx.
Qed.

End DeclarationAccuracy.

Section DeclarationAccuracyExamples.

Import Worded Examples.

Lemma evaluate_declaration_accuracy_metrics_witness :
  (0 < 100)%Z /\
  pool_declared_exactly <> [] /\
  exists sampled w' avg_ratio accuracy overestimation_rate,
    random_sample pool_declared_exactly
      (sample_size pool_declared_exactly 100) (fresh_world 4) = (Ok sampled, w') /\
    sampled <> [] /\
    incl sampled pool_declared_exactly /\
    evaluate_declaration_accuracy encode_row pool_declared_exactly 100 (fresh_world 4)
      = (Ok (avg_ratio, accuracy, overestimation_rate), w') /\
    avg_ratio == np_sum (map ratio (filter has_positive_sum sampled))
                 / inject_Z (Z.of_nat (length sampled)) /\
    accuracy == fraction counted_accurate sampled /\
    overestimation_rate == fraction counted_overestimate sampled /\
    (Forall (fun s => 0 < sum s) sampled ->
       avg_ratio == mean_ratio sampled /\
       accuracy == accurate_fraction sampled /\
       overestimation_rate == overestimation_fraction sampled).
Proof.
  split; [reflexivity|]. split; [discriminate|].
  apply (evaluate_declaration_accuracy_metrics encode_row pool_declared_exactly 100
           (fresh_world 4)); [reflexivity | discriminate].
Defined.

(** The wording of the specification fails on a sample holding a state
    whose sum is 0: the code returns an average of 1/2 where the mean over the states
    with a positive sum is 1, and an overestimation rate of 0 where half
    of the states declare more than their sum. *)
Lemma evaluate_declaration_accuracy_not_as_worded :
  exists avg_ratio accuracy overestimation_rate w',
    evaluate_declaration_accuracy encode_row pool_with_zero_sum 100 (fresh_world 4)
      = (Ok (avg_ratio, accuracy, overestimation_rate), w') /\
    avg_ratio == 1 # 2 /\
    mean_ratio pool_with_zero_sum == 1 /\
    ~ avg_ratio == mean_ratio pool_with_zero_sum /\
    overestimation_rate == 0 /\
    overestimation_fraction pool_with_zero_sum == 1 # 2 /\
    ~ overestimation_rate == overestimation_fraction pool_with_zero_sum.
Proof.
  do 4 eexists. split; [vm_compute; reflexivity|].
  repeat split; vm_compute; congruence.
Qed.

Lemma evaluate_declaration_accuracy_zero_defaults_witness :
  (0 <= 10)%Z /\
  exists sampled w' avg_ratio accuracy overestimation_rate,
    random_sample [] (sample_size [] 10) (fresh_world 4) = (Ok sampled, w') /\
    evaluate_declaration_accuracy encode_row [] 10 (fresh_world 4)
      = (Ok (avg_ratio, accuracy, overestimation_rate), w') /\
    (@nil GameState = [] -> sampled = []) /\
    (sampled = [] -> (avg_ratio, accuracy, overestimation_rate) = (0, 0, 0)) /\
    (Forall (fun s => ~ 0 < sum s) sampled ->
       avg_ratio == 0 /\ accuracy == 0 /\ overestimation_rate == 0).
Proof.
  split; [discriminate|].
  apply (evaluate_declaration_accuracy_zero_defaults encode_row [] 10 (fresh_world 4)).
  discriminate.
Defined.

(** One state declared exactly: ratio 1, accuracy 1, no overestimation. *)
Example evaluate_declaration_accuracy_exact :
  exists avg_ratio accuracy overestimation_rate w',
    evaluate_declaration_accuracy encode_row [mk_state [] 10 10] 100 (fresh_world 4)
      = (Ok (avg_ratio, accuracy, overestimation_rate), w') /\
    avg_ratio == 1 /\ accuracy == 1 /\ overestimation_rate == 0.
Proof.
  do 4 eexists. split; [vm_compute; reflexivity|].
  repeat split; reflexivity.
Qed.

(** One state declared at 15 for a sum of 10: ratio 3/2, not accurate,
    overestimated. *)
Example evaluate_declaration_accuracy_over :
  exists avg_ratio accuracy overestimation_rate w',
    evaluate_declaration_accuracy encode_row [mk_state [] 15 10] 100 (fresh_world 4)
      = (Ok (avg_ratio, accuracy, overestimation_rate), w') /\
    avg_ratio == 3 # 2 /\ accuracy == 0 /\ overestimation_rate == 1.
Proof.
  do 4 eexists. split; [vm_compute; reflexivity|].
  repeat split; reflexivity.
Qed.

(** A negative [num_samples] makes [random.sample] raise. *)
Example evaluate_declaration_accuracy_negative_samples :
  fst (evaluate_declaration_accuracy encode_row [mk_state [] 10 10] (-1) (fresh_world 4))
    = Raise ValueError.
Proof. reflexivity. Qed.

End DeclarationAccuracyExamples.

(* ================================================================== *)
(** ** evaluate_cfr_training on an empty pool *)

Section EmptyPool.

Variable encode_state : GameState -> ndarray.
Variable input_size : nat.
Variable advantage_net_fit : ndarray -> ndarray -> nat -> Result Q.
Variable presentation : MetricHistory -> list GameState -> Result unit.

(** The first statement of an iteration draws the batch indices, and
    numpy refuses to draw from an empty range. *)
Lemma training_iteration_empty_pool (i : nat) (w : World) :
  training_iteration encode_state input_size advantage_net_fit [] i w
    = (Raise ValueError, w).
Proof. reflexivity. Qed.

(** C3, in the form the code satisfies. With an empty pool and at least
    one iteration the call fails in its first iteration with the [ValueError] raised by
    [np.random.choice]; the exception reaches the caller, no estimator
    has been fitted, nothing has been logged and no random draw has
    been consumed. *)
Theorem evaluate_cfr_training_empty_pool (iterations : nat) (w : World) :
  (0 < iterations)%nat ->
  evaluate_cfr_training encode_state input_size advantage_net_fit presentation
      [] iterations w
    = (Raise ValueError, set_history empty_history w).
Proof.
  intro Hpos. destruct iterations as [|n]; [lia|].
  unfold evaluate_cfr_training. unfold bind at 1. unfold modify.
  unfold bind at 1. cbn [seq for_each]. unfold bind at 1.
  rewrite training_iteration_empty_pool. reflexivity.
Qed.

End EmptyPool.

Section EmptyPoolExamples.

Import Examples.

Lemma evaluate_cfr_training_empty_pool_witness :
  (0 < 1)%nat /\
  evaluate_cfr_training encode_row 2 constant_loss no_charts [] 1 (fresh_world 4)
    = (Raise ValueError, set_history empty_history (fresh_world 4)).
Proof.
  split; [lia|].
  apply (evaluate_cfr_training_empty_pool encode_row 2 constant_loss no_charts 1
           (fresh_world 4)).
  lia.
Defined.

(** The exception an empty pool produces is not [EmptyStatePoolError]. *)
Lemma empty_pool_error_is_not_EmptyStatePoolError :
  fst (evaluate_cfr_training encode_row 2 constant_loss no_charts [] 1 (fresh_world 4))
    = Raise ValueError /\
  fst (evaluate_cfr_training encode_row 2 constant_loss no_charts [] 1 (fresh_world 4))
    <> Raise EmptyStatePoolError.
Proof.
  split; [reflexivity|]. vm_compute. discriminate.
Qed.

End EmptyPoolExamples.

(* ================================================================== *)
(** ** Which computations reach an estimator *)

Section FitFacts.

Lemma random_only_fit_free {A : Type} (m : M A) : random_only m -> fit_free m.
Proof. intros H w. destruct (H w) as (_ & _ & Hs & Ha). now split. Qed.

Lemma fit_free_bind {A B : Type} (m : M A) (k : A -> M B) :
  fit_free m -> (forall a, fit_free (k a)) -> fit_free (bind m k).
Proof.
  intros Hm Hk w. unfold bind. specialize (Hm w).
  destruct (m w) as [[a | e] w1]; simpl in Hm.
  - destruct (Hk a w1) as [Hs Ha]. destruct Hm as [Hs' Ha'].
    split; congruence.
  - exact Hm.
Qed.

Lemma fit_free_set_reservoir_buffer (b : ReservoirBuffer) :
  fit_free (modify (set_reservoir_buffer b)).
Proof. intro w. split; reflexivity. Qed.

Lemma fit_free_for_each {A : Type} (body : A -> M unit) (xs : list A) :
  (forall x, fit_free (body x)) -> fit_free (for_each body xs).
Proof.
  intro Hb. induction xs as [|x xs IH]; simpl.
  - intro w. split; reflexivity.
  - apply fit_free_bind; [apply Hb | intro; exact IH].
Qed.

Lemma fit_free_buffer_add (item : Entry) : fit_free (buffer_add item).
Proof.
  unfold buffer_add.
  apply fit_free_bind; [apply random_only_fit_free, random_only_get | intro w0].
  cbv zeta.
  destruct (length (buffer (reservoir_buffer w0)) <? capacity (reservoir_buffer w0))%nat.
  - apply fit_free_set_reservoir_buffer.
  - apply fit_free_bind; [apply random_only_fit_free, random_only_random_below | intro idx].
    destruct (idx <? capacity (reservoir_buffer w0))%nat;
      apply fit_free_set_reservoir_buffer.
Qed.

Lemma fit_free_add_policy_target (obs : ndarray * list Q) :
  fit_free (add_policy_target obs).
Proof.
  destruct obs as [encoded_state advantage_vector]. unfold add_policy_target.
  apply fit_free_bind; [apply random_only_fit_free, random_only_lift | intro policy].
  apply fit_free_buffer_add.
Qed.

Lemma fit_free_add_policy_targets
    (advantages : list (string * list (ndarray * list Q))) :
  fit_free (add_policy_targets advantages).
Proof.
  unfold add_policy_targets. apply fit_free_for_each. intro item.
  apply fit_free_for_each. intro obs. apply fit_free_add_policy_target.
Qed.

Lemma fit_free_log_metrics (i : nat) (a b c d : option Q) :
  fit_free (log_metrics i a b c d).
Proof. intro w. split; reflexivity. Qed.

Lemma extended_by_refl (P : FitCall -> Prop) (calls : list FitCall) :
  extended_by P calls calls.
Proof. exists []. split; [now rewrite app_nil_r | constructor]. Qed.

Lemma extended_by_trans (P : FitCall -> Prop) (c1 c2 c3 : list FitCall) :
  extended_by P c1 c2 -> extended_by P c2 c3 -> extended_by P c1 c3.
Proof.
  intros (n1 & -> & H1) (n2 & -> & H2). exists (n1 ++ n2).
  split; [now rewrite app_assoc | now apply Forall_app].
Qed.

Lemma extended_by_one (P : FitCall -> Prop) (calls : list FitCall) (c : FitCall) :
  P c -> extended_by P calls (calls ++ [c]).
Proof. intro Hc. exists [c]. split; [reflexivity | now constructor]. Qed.

Lemma extended_by_eq (P : FitCall -> Prop) (calls calls' : list FitCall) :
  calls' = calls -> extended_by P calls calls'.
Proof. intros ->. apply extended_by_refl. Qed.

End FitFacts.

(* ================================================================== *)
(** ** The policy-target loop and the sampling of a batch *)

Section BufferFacts.

Lemma buffer_add_returns (item : Entry) (w : World) :
  exists w', buffer_add item w = (Ok tt, w').
Proof.
  unfold buffer_add, bind, get. cbv zeta.
  destruct (length (buffer (reservoir_buffer w)) <? capacity (reservoir_buffer w))%nat.
  - eexists. reflexivity.
  - unfold random_below.
    destruct (next_draw (S (seen (reservoir_buffer w))) (random_state w)) as [idx rest].
    destruct (idx <? capacity (reservoir_buffer w))%nat; eexists; reflexivity.
Qed.

Lemma add_policy_target_returns (obs : ndarray * list Q) (w : World) :
  snd obs <> [] -> exists w', add_policy_target obs w = (Ok tt, w').
Proof.
  destruct obs as [encoded_state advantage_vector]. simpl. intro Hne.
  destruct (regret_match_branch_nonempty advantage_vector Hne) as (m & _ & Hbr).
  unfold add_policy_target, bind, lift, regret_match. rewrite Hbr.
  apply buffer_add_returns.
Qed.

Lemma for_each_returns {A : Type} (body : A -> M unit) (xs : list A) :
  Forall (fun x => forall w, exists w', body x w = (Ok tt, w')) xs ->
  forall w, exists w', for_each body xs w = (Ok tt, w').
Proof.
  induction 1 as [|x xs Hx _ IH]; intro w; simpl.
  - eexists. reflexivity.
  - unfold bind. destruct (Hx w) as [w1 ->]. apply IH.
Qed.

(** With no empty advantage vector the policy-target loop completes. *)
Lemma add_policy_targets_returns
    (advantages : list (string * list (ndarray * list Q))) (w : World) :
  Forall (fun item => Forall (fun obs => snd obs <> []) (snd item)) advantages ->
  exists w', add_policy_targets advantages w = (Ok tt, w').
Proof.
  intro Hall. unfold add_policy_targets. apply for_each_returns.
  eapply Forall_impl; [|exact Hall]. intros item Hitem.
  apply for_each_returns.
  eapply Forall_impl; [|exact Hitem]. intros obs Hobs w0.
  now apply add_policy_target_returns.
Qed.

Lemma buffer_sample_ok (batch_size : nat) (w : World) :
  (batch_size <= length (buffer (reservoir_buffer w)))%nat ->
  exists samples w',
    buffer_sample batch_size w = (Ok samples, w') /\
    length samples = batch_size /\
    incl samples (buffer (reservoir_buffer w)) /\
    untouched w w'.
Proof.
  intro Hle. unfold buffer_sample, bind, get.
  replace (length (buffer (reservoir_buffer w)) <? batch_size)%nat with false
    by (symmetry; apply Nat.ltb_ge, Hle).
  destruct (draw_without_replacement_ok batch_size (buffer (reservoir_buffer w)) w Hle)
    as (samples & w' & Hd & Hlen & Hincl).
  exists samples, w'. repeat split; try assumption;
    pose proof (random_only_draw batch_size (buffer (reservoir_buffer w)) w) as Hu;
    rewrite Hd in Hu; apply Hu.
Qed.

Lemma buffer_sample_length (batch_size : nat) (w w' : World) (samples : list Entry) :
  buffer_sample batch_size w = (Ok samples, w') -> length samples = batch_size.
Proof.
  intro Hs.
  destruct (Nat.ltb_spec (length (buffer (reservoir_buffer w))) batch_size) as [Hlt | Hge].
  - unfold buffer_sample, bind, get in Hs.
    apply Nat.ltb_lt in Hlt. rewrite Hlt in Hs. discriminate.
  - destruct (buffer_sample_ok batch_size w Hge) as (s' & w2 & Hs' & Hlen & _).
    congruence.
Qed.

End BufferFacts.

(* ================================================================== *)
(** ** Tracing the estimator calls *)

Section TraceFacts.

Variables Ps Pa : FitCall -> Prop.

Lemma fit_trace_refl (w : World) : fit_trace Ps Pa w w.
Proof. split; apply extended_by_refl. Qed.

Lemma fit_trace_trans (w1 w2 w3 : World) :
  fit_trace Ps Pa w1 w2 -> fit_trace Ps Pa w2 w3 -> fit_trace Ps Pa w1 w3.
Proof.
  intros [H1 H2] [H3 H4]. split; eapply extended_by_trans; eassumption.
Qed.

Lemma fit_trace_fit_free {A : Type} (m : M A) (w : World) :
  fit_free m -> fit_trace Ps Pa w (snd (m w)).
Proof.
  intro H. destruct (H w) as [Hs Ha]. split; apply extended_by_eq; assumption.
Qed.

Lemma fit_trace_random_only {A : Type} (m : M A) (w : World) :
  random_only m -> fit_trace Ps Pa w (snd (m w)).
Proof. intro H. apply fit_trace_fit_free, random_only_fit_free, H. Qed.

Lemma fit_trace_bind {A B : Type} (m : M A) (k : A -> M B) (w : World) :
  fit_trace Ps Pa w (snd (m w)) ->
  (forall a w1, m w = (Ok a, w1) -> fit_trace Ps Pa w1 (snd (k a w1))) ->
  fit_trace Ps Pa w (snd (bind m k w)).
Proof.
  intros Hm Hk. unfold bind.
  destruct (m w) as [[a | e] w1] eqn:E; simpl in Hm.
  - eapply fit_trace_trans; [exact Hm | apply Hk; reflexivity].
  - exact Hm.
Qed.

Lemma fit_trace_for_each {A : Type} (body : A -> M unit) (xs : list A) :
  (forall x w, fit_trace Ps Pa w (snd (body x w))) ->
  forall w, fit_trace Ps Pa w (snd (for_each body xs w)).
Proof.
  intro Hb. induction xs as [|x xs IH]; intro w; simpl.
  - apply fit_trace_refl.
  - apply fit_trace_bind; [apply Hb | intros _ w1 _; apply IH].
Qed.

Lemma fit_trace_strategy_fit
    (fit : ndarray -> ndarray -> nat -> Result unit)
    (states targets : ndarray) (epochs : nat) (w : World) :
  Ps (mk_fit states targets epochs) ->
  fit_trace Ps Pa w (snd (strategy_fit fit states targets epochs w)).
Proof.
  intro Hc. unfold strategy_fit, bind, modify, lift. simpl.
  split; [apply extended_by_one, Hc | apply extended_by_refl].
Qed.

Lemma fit_trace_advantage_fit
    (fit : ndarray -> ndarray -> nat -> Result Q)
    (inputs targets : ndarray) (epochs : nat) (w : World) :
  Pa (mk_fit inputs targets epochs) ->
  fit_trace Ps Pa w (snd (advantage_fit fit inputs targets epochs w)).
Proof.
  intro Hc. unfold advantage_fit, bind, modify, lift. simpl.
  split; [apply extended_by_refl | apply extended_by_one, Hc].
Qed.

End TraceFacts.

Section LengthFacts.

Lemma lift_ok {A : Type} (r : Result A) (a : A) (w w' : World) :
  lift r w = (Ok a, w') -> r = Ok a.
Proof. unfold lift. intro H. now injection H. Qed.

Lemma map_m_length {A B : Type} (f : A -> M B) (xs : list A)
    (w w' : World) (ys : list B) :
  map_m f xs w = (Ok ys, w') -> length ys = length xs.
Proof.
  revert w w' ys. induction xs as [|x xs IH]; intros w w' ys H; simpl in H.
  - unfold ret in H. injection H as <- _. reflexivity.
  - unfold bind in H. destruct (f x w) as [[y | e] w1]; [|discriminate].
    destruct (map_m f xs w1) as [[ys' | e] w2] eqn:E; [|discriminate].
    unfold ret in H. injection H as <- _. cbn [length]. f_equal.
    eapply IH, E.
Qed.

Lemma np_random_choice_length (a size : nat) (w w' : World) (indices : list nat) :
  np_random_choice a size w = (Ok indices, w') -> length indices = size.
Proof.
  unfold np_random_choice.
  destruct ((a =? 0)%nat && negb (size =? 0)%nat); [discriminate|].
  intro H. apply map_m_length in H. now rewrite repeat_length in H.
Qed.

End LengthFacts.

(* ================================================================== *)
(** ** update_strategy_network *)

Section StrategyUpdateProperties.

Variable input_size : nat.
Variable strategy_net_fit : ndarray -> ndarray -> nat -> Result unit.


(** What remains of the call once the policy targets are in the buffer. *)
Lemma update_strategy_network_after_add
    (advantages : list (string * list (ndarray * list Q)))
    (batch_size epochs : nat) (w w1 : World) :
  add_policy_targets advantages w = (Ok tt, w1) ->
  update_strategy_network input_size strategy_net_fit advantages batch_size epochs w
  = if (length (buffer (reservoir_buffer w1)) <? batch_size)%nat
    then (Ok tt, w1)
    else bind (buffer_sample batch_size)
              (fun samples => fit_on_samples input_size strategy_net_fit samples epochs) w1.
Proof.
  intro Hadd. unfold update_strategy_network, bind at 1.
  rewrite Hadd. unfold bind at 1, get.
  destruct (length (buffer (reservoir_buffer w1)) <? batch_size)%nat; reflexivity.
Qed.

(** When the batch assembles, the estimator is called on it. *)
Lemma fit_on_samples_records
    (samples : list Entry) (epochs : nat) (w : World)
    (raw states targets : ndarray) :
  np_array (map fst samples) = Ok raw ->
  np_array (map (fun s => vector (snd s)) samples) = Ok targets ->
  reshape_guard input_size raw = Ok states ->
  fit_on_samples input_size strategy_net_fit samples epochs w =
    (strategy_net_fit states targets epochs,
     record_strategy_fit (mk_fit states targets epochs) w).
Proof.
  intros Hraw Htargets Hguard.
  unfold fit_on_samples, bind, lift.
  rewrite Hraw, Htargets, Hguard. unfold strategy_fit, bind, modify, lift.
  reflexivity.
Qed.

Lemma fit_on_samples_trace (samples : list Entry) (epochs : nat) (w : World) :
  fit_trace (strategy_call_guarded input_size (length samples)) never
            w (snd (fit_on_samples input_size strategy_net_fit samples epochs w)).
Proof.
  unfold fit_on_samples.
  apply fit_trace_bind; [apply fit_trace_random_only, random_only_lift|].
  intros raw w1 Hraw. apply lift_ok in Hraw.
  apply fit_trace_bind; [apply fit_trace_random_only, random_only_lift|].
  intros targets w2 _.
  apply fit_trace_bind; [apply fit_trace_random_only, random_only_lift|].
  intros states w3 Hguard. apply lift_ok in Hguard.
  apply fit_trace_strategy_fit.
  exists samples. split; [reflexivity|].
  exists raw. split; assumption.
Qed.

Lemma update_strategy_network_trace
    (advantages : list (string * list (ndarray * list Q)))
    (batch_size epochs : nat) (w : World) :
  fit_trace (strategy_call_guarded input_size batch_size) never
            w
            (snd (update_strategy_network input_size strategy_net_fit
                    advantages batch_size epochs w)).
Proof.
  unfold update_strategy_network.
  apply fit_trace_bind;
    [apply fit_trace_fit_free, fit_free_add_policy_targets|].
  intros _ w1 _.
  apply fit_trace_bind; [apply fit_trace_random_only, random_only_get|].
  intros w0 w2 Hget. unfold get in Hget. injection Hget as <- <-.
  destruct (length (buffer (reservoir_buffer w1)) <? batch_size)%nat.
  - apply fit_trace_refl.
  - apply fit_trace_bind.
    + apply fit_trace_random_only. unfold buffer_sample.
      apply random_only_bind; [apply random_only_get | intro w0].
      destruct (length (buffer (reservoir_buffer w0)) <? batch_size)%nat;
        [apply random_only_raise | apply random_only_draw].
    + intros samples w2 Hs.
      rewrite <- (buffer_sample_length _ _ _ _ Hs).
      apply fit_on_samples_trace.
Qed.

End StrategyUpdateProperties.


(* ================================================================== *)
(** ** The reshape guard *)

Section ReshapeGuard.

Variable input_size : nat.

Lemma np_array_uniform (rows : list ndarray) (sh : list nat) :
  rows <> [] ->
  Forall (fun r => shape r = sh) rows ->
  np_array rows =
    Ok {| shape := length rows :: sh; data := concat (map data rows) |}.
Proof.
  intros Hne Hall. destruct rows as [|r rs]; [congruence|].
  inversion Hall as [|? ? Hr Hrs]; subst. unfold np_array.
  replace (forallb (same_shape r) rs) with true; [reflexivity|].
  symmetry. apply forallb_forall. intros r' Hin.
  rewrite Forall_forall in Hrs. specialize (Hrs r' Hin).
  unfold same_shape. destruct (list_eq_dec Nat.eq_dec (shape r) (shape r'));
    [reflexivity | congruence].
Qed.

(** A rank-3 batch with a singleton middle axis and rows of the
    estimator's width loses that axis and keeps its data. *)
Lemma reshape_guard_singleton (a : ndarray) (b : nat) :
  (0 < input_size)%nat ->
  shape a = [b; 1%nat; input_size] ->
  reshape_guard input_size a = Ok {| shape := [b; input_size]; data := data a |}.
Proof.
  intros Hpos Hsh. unfold reshape_guard, reshape. rewrite Hsh. cbn [length Nat.eqb].
  replace (input_size =? 0)%nat with false by (symmetry; apply Nat.eqb_neq; lia).
  cbn [size_of fold_right].
  replace (b * (1 * (input_size * 1)))%nat with (b * input_size)%nat by lia.
  rewrite Nat.Div0.mod_mul, Nat.eqb_refl, Nat.div_mul by lia.
  reflexivity.
Qed.


(** The guard never lets a rank-3 batch through. *)
Lemma reshape_guard_not_rank3 (a g : ndarray) :
  reshape_guard input_size a = Ok g -> length (shape g) <> 3%nat.
Proof.
  unfold reshape_guard, reshape.
  destruct (length (shape a) =? 3)%nat eqn:E.
  - destruct (input_size =? 0)%nat; [discriminate|].
    destruct (size_of (shape a) mod input_size =? 0)%nat; [|discriminate].
    intro H. injection H as <-. simpl. lia.
  - intro H. injection H as <-. apply Nat.eqb_neq in E. exact E.
Qed.

End ReshapeGuard.

(* ================================================================== *)
(** ** evaluate_cfr_training: the calls the advantage estimator receives *)

Section OrchestratorTrace.

Variable encode_state : GameState -> ndarray.
Variable input_size : nat.
Variable advantage_net_fit : ndarray -> ndarray -> nat -> Result Q.
Variable presentation : MetricHistory -> list GameState -> Result unit.

Lemma training_iteration_trace (current_state : list GameState) (i : nat) (w : World) :
  fit_trace never (advantage_call_guarded encode_state input_size) w
    (snd (training_iteration encode_state input_size advantage_net_fit
            current_state i w)).
Proof.
  unfold training_iteration. cbv zeta.
  apply fit_trace_bind; [apply fit_trace_random_only, random_only_np_random_choice|].
  intros batch_indices w1 Hidx. apply np_random_choice_length in Hidx.
  apply fit_trace_bind.
  { apply fit_trace_random_only, random_only_map_m. intro. apply random_only_getitem. }
  intros batch_states w2 Hbatch. apply map_m_length in Hbatch.
  apply fit_trace_bind; [apply fit_trace_random_only, random_only_lift|].
  intros raw w3 Hraw. apply lift_ok in Hraw.
  apply fit_trace_bind; [apply fit_trace_random_only, random_only_lift|].
  intros encoded_states w4 Hguard. apply lift_ok in Hguard.
  apply fit_trace_bind; [apply fit_trace_random_only, random_only_np_random_rand|].
  intros targets w5 _.
  apply fit_trace_bind.
  { apply fit_trace_advantage_fit. exists batch_states.
    split; [congruence|]. exists raw. split; assumption. }
  intros loss w6 _.
  apply fit_trace_fit_free.
  apply fit_free_bind; [apply random_only_fit_free, random_only_random_random | intro r].
  apply fit_free_bind;
    [apply random_only_fit_free, random_only_evaluate_declaration_accuracy | intro m].
  apply fit_free_bind;
    [apply random_only_fit_free, random_only_evaluate_win_rate | intro rate].
  apply fit_free_log_metrics.
Qed.

Lemma evaluate_cfr_training_trace
    (current_state : list GameState) (iterations : nat) (w : World) :
  fit_trace never (advantage_call_guarded encode_state input_size) w
    (snd (evaluate_cfr_training encode_state input_size advantage_net_fit
            presentation current_state iterations w)).
Proof.
  unfold evaluate_cfr_training.
  apply fit_trace_bind.
  { apply fit_trace_fit_free. intro w0. split; reflexivity. }
  intros _ w1 _.
  apply fit_trace_bind.
  { apply fit_trace_for_each. intros i w0. apply training_iteration_trace. }
  intros _ w2 _.
  apply fit_trace_bind; [apply fit_trace_random_only, random_only_get|].
  intros w0 w3 _.
  apply fit_trace_bind; [apply fit_trace_random_only, random_only_lift|].
  intros _ w4 _. apply fit_trace_random_only, random_only_ret.
Qed.

End OrchestratorTrace.


(* ================================================================== *)
(** ** Regret matching: closed form, bounds, ties and reordering *)

Section RegretMatchingClosedForm.

(** The number of entries, as a rational. *)
Local Notation "'#|' v '|'" := (inject_Z (Z.of_nat (length v))) (at level 0).

Lemma np_sum_shifted (v : list Q) (m : Q) :
  np_sum (shifted_advantages v m) == np_sum v - #|v| * m + #|v| * epsilon.
Proof.
  unfold shifted_advantages. induction v as [|x xs IH].
  - cbn [map length]. rewrite np_sum_nil.
    change (inject_Z (Z.of_nat 0)) with 0. ring.
  - cbn [map length]. rewrite !np_sum_cons, IH.
    rewrite Nat2Z.inj_succ, <- Z.add_1_r, inject_Z_plus.
    change (inject_Z 1) with 1. ring.
Qed.

Lemma np_sum_ge_entry (xs : list Q) (x : Q) :
  Forall (fun y => 0 <= y) xs -> In x xs -> x <= np_sum xs.
Proof.
  induction 1 as [|y ys Hy Hys IH]; intro Hin; [contradiction|].
  rewrite np_sum_cons.
  assert (Hsum : 0 <= np_sum ys).
  { pose proof (np_sum_lower ys 0 Hys) as H. lra. }
  destruct Hin as [<- | Hin]; [lra|].
  specialize (IH Hin). lra.
Qed.

Lemma Forall2_map_r {A B : Type} (R : A -> B -> Prop) (f : A -> B) (xs : list A) :
  (forall x, In x xs -> R x (f x)) -> Forall2 R xs (map f xs).
Proof.
  induction xs as [|x xs IH]; intro H; simpl; constructor.
  - apply H. now left.
  - apply IH. intros y Hy. apply H. now right.
Qed.

(** The policy written out: action [i] gets
    [(v_i - min + epsilon) / (sum v - n * min + n * epsilon)], where [min]
    is an entry of [v] below all the others. *)
Theorem regret_match_closed_form (v : list Q) :
  v <> [] ->
  exists min_adv policy,
    In min_adv v /\
    (forall a, In a v -> min_adv <= a) /\
    0 < np_sum v - #|v| * min_adv + #|v| * epsilon /\
    regret_match v = Ok policy /\
    Forall2 (fun a p =>
               p == (a - min_adv + epsilon)
                    / (np_sum v - #|v| * min_adv + #|v| * epsilon))
            v policy.
Proof.
  intro Hne.
  destruct (regret_match_branch_nonempty v Hne) as (m & Hm & Hbr).
  pose proof (shifted_sum_pos v m Hm) as Hpos.
  pose proof (np_sum_shifted v m) as Hsum.
  exists m. eexists. split; [apply np_min_in, Hm|].
  split; [apply np_min_lower_bound, Hm|].
  split; [rewrite <- Hsum; exact Hpos|].
  unfold regret_match. rewrite Hbr. split; [reflexivity|].
  unfold shifted_advantages. rewrite map_map.
  apply Forall2_map_r. intros a _.
  apply Qmult_comp; [reflexivity|].
  apply Qinv_comp. exact Hsum.
Qed.

Lemma regret_match_closed_form_witness :
  [-3; -1; -5] <> [] /\
  exists policy,
    regret_match [-3; -1; -5] = Ok policy /\
    Forall2 Qeq policy [ (2000001 # 6000003); (4000001 # 6000003); (1 # 6000003) ].
Proof.
  split; [discriminate|].
  destruct (regret_match_closed_form [-3; -1; -5]) as (m & policy & _ & _ & _ & Hp & _);
    [discriminate|].
  exists policy. split; [exact Hp|].
  vm_compute in Hp. injection Hp as <-.
  repeat constructor.
Defined.

(** In exact arithmetic no action is given probability 0, and none
    more than 1. *)
Theorem regret_match_strictly_positive (v : list Q) :
  v <> [] ->
  exists policy,
    regret_match v = Ok policy /\
    Forall (fun p => 0 < p /\ p <= 1) policy.
Proof.
  intro Hne.
  destruct (regret_match_branch_nonempty v Hne) as (m & Hm & Hbr).
  pose proof (shifted_sum_pos v m Hm) as Hpos.
  pose proof (shifted_ge_epsilon v m Hm) as Hge.
  eexists. unfold regret_match. rewrite Hbr. split; [reflexivity|].
  apply Forall_forall. intros p Hp.
  apply in_map_iff in Hp as (s & <- & Hs).
  assert (Hs0 : epsilon <= s) by (rewrite Forall_forall in Hge; apply Hge, Hs).
  pose proof epsilon_pos as He.
  split.
  - apply Qlt_shift_div_l; [exact Hpos | lra].
  - apply Qle_shift_div_r; [exact Hpos|].
    rewrite Qmult_1_l. apply np_sum_ge_entry; [|exact Hs].
    eapply Forall_impl; [|exact Hge]. intros y Hy. simpl in Hy. lra.
Qed.

Lemma regret_match_strictly_positive_witness :
  [-3; -1; -5] <> [] /\
  exists policy,
    regret_match [-3; -1; -5] = Ok policy /\
    Forall (fun p => 0 < p /\ p <= 1) policy.
Proof.
  split; [discriminate|].
  apply (regret_match_strictly_positive [-3; -1; -5]). discriminate.
Defined.

(** In exact arithmetic the policy orders the actions exactly as the
    advantages do: an entry is smaller, or equal, in the policy if and
    only if it is in the advantage vector. *)
Theorem regret_match_order_iff (v : list Q) (i j : nat) (a b : Q) :
  nth_error v i = Some a ->
  nth_error v j = Some b ->
  exists policy pa pb,
    regret_match v = Ok policy /\
    nth_error policy i = Some pa /\
    nth_error policy j = Some pb /\
    (pa < pb <-> a < b) /\
    (pa == pb <-> a == b).
Proof.
  intros Hi Hj.
  assert (Hne : v <> []) by (intros ->; destruct i; discriminate).
  destruct (regret_match_branch_nonempty v Hne) as (m & Hm & Hbr).
  pose proof (shifted_sum_pos v m Hm) as Hpos.
  set (T := np_sum (shifted_advantages v m)) in *.
  exists (map (fun s => s / T) (shifted_advantages v m)),
         ((a - m + epsilon) / T), ((b - m + epsilon) / T).
  unfold regret_match. rewrite Hbr. split; [reflexivity|].
  unfold shifted_advantages at 1 2. rewrite !map_map.
  split; [rewrite nth_error_map, Hi; reflexivity|].
  split; [rewrite nth_error_map, Hj; reflexivity|].
  assert (Hinv : 0 < / T) by (apply Qinv_lt_0_compat, Hpos).
  unfold Qdiv. split; split; intro H.
  - apply Qmult_lt_r in H; [lra | exact Hinv].
  - apply Qmult_lt_r; [exact Hinv | lra].
  - apply Qmult_inj_r in H; [lra | lra].
  - rewrite H. reflexivity.
Qed.

Lemma regret_match_order_iff_witness :
  nth_error [2; 7; 2] 0 = Some 2 /\
  nth_error [2; 7; 2] 2 = Some 2 /\
  exists policy pa pb,
    regret_match [2; 7; 2] = Ok policy /\
    nth_error policy 0 = Some pa /\
    nth_error policy 2 = Some pb /\
    (pa < pb <-> 2 < 2) /\
    (pa == pb <-> 2 == 2).
Proof.
  split; [reflexivity|]. split; [reflexivity|].
  apply (regret_match_order_iff [2; 7; 2] 0 2 2 2); reflexivity.
Defined.

Lemma np_sum_permutation (xs ys : list Q) :
  Permutation xs ys -> np_sum xs == np_sum ys.
Proof.
  induction 1 as [| x xs ys _ IH | x y xs | xs ys zs _ IH1 _ IH2].
  - reflexivity.
  - rewrite !np_sum_cons, IH. reflexivity.
  - rewrite !np_sum_cons. ring.
  - rewrite IH1. exact IH2.
Qed.

Lemma np_min_permutation (xs ys : list Q) (m m' : Q) :
  Permutation xs ys -> np_min xs = Ok m -> np_min ys = Ok m' -> m == m'.
Proof.
  intros Hperm Hm Hm'. apply Qle_antisym.
  - apply (np_min_lower_bound xs m Hm).
    apply (Permutation_in _ (Permutation_sym Hperm)), np_min_in, Hm'.
  - apply (np_min_lower_bound ys m' Hm').
    apply (Permutation_in _ Hperm), np_min_in, Hm.
Qed.

(** Reordering the actions reorders the policy with them: in both
    orders an action with advantage [a] is given the same probability
    [(a - min + epsilon) / total], with [min] and [total] those of the
    original vector. *)
Theorem regret_match_reordering (v v' : list Q) :
  v <> [] ->
  Permutation v v' ->
  exists min_adv total policy policy',
    np_min v = Ok min_adv /\
    total == np_sum (shifted_advantages v min_adv) /\
    regret_match v = Ok policy /\
    regret_match v' = Ok policy' /\
    Forall2 (fun a p => p == (a - min_adv + epsilon) / total) v policy /\
    Forall2 (fun a p => p == (a - min_adv + epsilon) / total) v' policy'.
Proof.
  intros Hne Hperm.
  assert (Hne' : v' <> []).
  { intros ->. apply Permutation_sym, Permutation_nil in Hperm. contradiction. }
  destruct (regret_match_branch_nonempty v Hne) as (m & Hm & Hbr).
  destruct (regret_match_branch_nonempty v' Hne') as (m' & Hm' & Hbr').
  pose proof (np_min_permutation v v' m m' Hperm Hm Hm') as Hmm.
  assert (Hsum : np_sum (shifted_advantages v' m') == np_sum (shifted_advantages v m)).
  { rewrite !np_sum_shifted, <- (np_sum_permutation v v' Hperm),
      <- (Permutation_length Hperm), Hmm. reflexivity. }
  exists m, (np_sum (shifted_advantages v m)). do 2 eexists.
  unfold regret_match. rewrite Hbr, Hbr'.
  split; [exact Hm|]. split; [reflexivity|].
  split; [reflexivity|]. split; [reflexivity|].
  set (T := np_sum (shifted_advantages v m)) in *.
  set (T' := np_sum (shifted_advantages v' m')) in *.
  unfold shifted_advantages. rewrite !map_map.
  split.
  - apply Forall2_map_r. intros a _. reflexivity.
  - apply Forall2_map_r. intros a _. rewrite Hsum, Hmm. reflexivity.
Qed.

Lemma regret_match_reordering_witness :
  [-3; -1; -5] <> [] /\
  Permutation [-3; -1; -5] [-5; -3; -1] /\
  exists p1 p2 p3 q1 q2 q3,
    regret_match [-3; -1; -5] = Ok [p1; p2; p3] /\
    regret_match [-5; -3; -1] = Ok [q1; q2; q3] /\
    q1 == p3 /\ q2 == p1 /\ q3 == p2.
Proof.
  assert (Hperm : Permutation [-3; -1; -5] [-5; -3; -1]).
  { apply Permutation_sym, (Permutation_cons_app [-3; -1] [] (-5)).
    rewrite app_nil_r. apply Permutation_refl. }
  split; [discriminate|]. split; [exact Hperm|].
  destruct (regret_match_reordering [-3; -1; -5] [-5; -3; -1])
    as (m & total & policy & policy' & _ & _ & Hp & Hp' & Hv & Hv');
    [discriminate | exact Hperm |].
  inversion Hv as [|a1 p1 l1 l1' H1 Hv1]; subst.
  inversion Hv1 as [|a2 p2 l2 l2' H2 Hv2]; subst.
  inversion Hv2 as [|a3 p3 l3 l3' H3 Hv3]; subst.
  inversion Hv3; subst.
  inversion Hv' as [|b1 q1 k1 k1' G1 Hw1]; subst.
  inversion Hw1 as [|b2 q2 k2 k2' G2 Hw2]; subst.
  inversion Hw2 as [|b3 q3 k3 k3' G3 Hw3]; subst.
  inversion Hw3; subst.
  exists p1, p2, p3, q1, q2, q3.
  split; [exact Hp|]. split; [exact Hp'|].
  split; [rewrite G1, H3; reflexivity|].
  split; [rewrite G2, H1; reflexivity | rewrite G3, H2; reflexivity].
Defined.

End RegretMatchingClosedForm.

(* ================================================================== *)
(** ** update_strategy_network: errors, the single fit call, the buffer *)

Section PreservationFacts.

Variable I : World -> Prop.

Lemma preserves_bind {A B : Type} (m : M A) (k : A -> M B) :
  preserves I m -> (forall a, preserves I (k a)) -> preserves I (bind m k).
Proof.
  intros Hm Hk w Hw. unfold bind. specialize (Hm w Hw).
  destruct (m w) as [[a | e] w1]; simpl in Hm.
  - apply Hk, Hm.
  - exact Hm.
Qed.

Lemma preserves_for_each {A : Type} (body : A -> M unit) (xs : list A) :
  (forall x, In x xs -> preserves I (body x)) -> preserves I (for_each body xs).
Proof.
  induction xs as [|x xs IH]; intro Hb; simpl.
  - intros w Hw. exact Hw.
  - apply preserves_bind; [apply Hb; now left|].
    intros _. apply IH. intros y Hy. apply Hb. now right.
Qed.

Lemma preserves_lift {A : Type} (r : Result A) : preserves I (lift r).
Proof. intros w Hw. exact Hw. Qed.

Lemma preserves_ret {A : Type} (a : A) : preserves I (ret a).
Proof. intros w Hw. exact Hw. Qed.

Lemma preserves_get : preserves I get.
Proof. intros w Hw. exact Hw. Qed.

End PreservationFacts.

Section SimplexBuffer.

Variable input_size : nat.
Variable strategy_net_fit : ndarray -> ndarray -> nat -> Result unit.

Lemma regret_match_returns_simplex (v policy : list Q) :
  regret_match v = Ok policy -> is_simplex policy.
Proof.
  intro Hp.
  assert (Hne : v <> []) by (intros ->; discriminate Hp).
  destruct (regret_match_branch_nonempty v Hne) as (m & Hm & Hbr).
  pose proof (shifted_sum_pos v m Hm) as Hpos.
  pose proof (shifted_ge_epsilon v m Hm) as Hge.
  unfold regret_match in Hp. rewrite Hbr in Hp. injection Hp as <-.
  split.
  - apply Forall_forall. intros p Hin.
    apply in_map_iff in Hin as (s & <- & Hs).
    rewrite Forall_forall in Hge. specialize (Hge s Hs).
    apply Qle_shift_div_l; [exact Hpos|].
    pose proof epsilon_pos. lra.
  - rewrite np_sum_scale. field. lra.
Qed.

Lemma untouched_simplexes (w w' : World) :
  untouched w w' -> buffer_holds_simplexes w -> buffer_holds_simplexes w'.
Proof.
  intros (Hb & _) H. unfold buffer_holds_simplexes in *. now rewrite Hb.
Qed.

Lemma random_only_preserves_simplexes {A : Type} (m : M A) :
  random_only m -> preserves buffer_holds_simplexes m.
Proof. intros Hm w Hw. eapply untouched_simplexes; [apply Hm | exact Hw]. Qed.

Lemma replace_at_Forall {A : Type} (P : A -> Prop) (i : nat) (x : A) (xs : list A) :
  P x -> Forall P xs -> Forall P (replace_at i x xs).
Proof.
  intros Hx Hxs. unfold replace_at. apply Forall_app. split.
  - apply Forall_forall. intros y Hy. rewrite Forall_forall in Hxs.
    apply Hxs. rewrite <- (firstn_skipn i xs). apply in_or_app. now left.
  - constructor; [exact Hx|].
    apply Forall_forall. intros y Hy. rewrite Forall_forall in Hxs.
    apply Hxs. rewrite <- (firstn_skipn (S i) xs). apply in_or_app. now right.
Qed.

Lemma buffer_add_preserves_simplexes (item : Entry) :
  is_simplex (snd item) -> preserves buffer_holds_simplexes (buffer_add item).
Proof.
  intros Hitem w Hw. unfold buffer_add, bind, get. cbv zeta.
  destruct (length (buffer (reservoir_buffer w)) <? capacity (reservoir_buffer w))%nat.
  - unfold modify, buffer_holds_simplexes. simpl.
    apply Forall_app. split; [exact Hw | now constructor].
  - unfold random_below.
    destruct (next_draw (S (seen (reservoir_buffer w))) (random_state w)) as [idx rest].
    destruct (idx <? capacity (reservoir_buffer w))%nat;
      unfold modify, buffer_holds_simplexes; simpl.
    + apply replace_at_Forall; [exact Hitem | exact Hw].
    + exact Hw.
Qed.

Lemma add_policy_target_preserves_simplexes (obs : ndarray * list Q) :
  preserves buffer_holds_simplexes (add_policy_target obs).
Proof.
  destruct obs as [encoded_state advantage_vector]. intros w Hw.
  unfold add_policy_target, bind, lift.
  destruct (regret_match advantage_vector) as [policy | e] eqn:Hp; [|exact Hw].
  apply buffer_add_preserves_simplexes; [|exact Hw].
  simpl. eapply regret_match_returns_simplex, Hp.
Qed.

Lemma strategy_fit_preserves_simplexes (states targets : ndarray) (epochs : nat) :
  preserves buffer_holds_simplexes (strategy_fit strategy_net_fit states targets epochs).
Proof. intros w Hw. unfold strategy_fit, bind, modify, lift. exact Hw. Qed.

Lemma random_only_buffer_sample (batch_size : nat) :
  random_only (buffer_sample batch_size).
Proof.
  unfold buffer_sample.
  apply random_only_bind; [apply random_only_get | intro w0].
  destruct (length (buffer (reservoir_buffer w0)) <? batch_size)%nat;
    [apply random_only_raise | apply random_only_draw].
Qed.

(** With the regret matching computed in exact arithmetic: if every
    policy target in the buffer is a probability vector before the call,
    every one is after it, however the call ends. *)
Theorem update_strategy_network_keeps_simplexes
    (advantages : list (string * list (ndarray * list Q)))
    (batch_size epochs : nat) (w : World) :
  buffer_holds_simplexes w ->
  buffer_holds_simplexes
    (snd (update_strategy_network input_size strategy_net_fit
            advantages batch_size epochs w)).
Proof.
  revert w. change (preserves buffer_holds_simplexes
    (update_strategy_network input_size strategy_net_fit advantages batch_size epochs)).
  unfold update_strategy_network.
  apply preserves_bind.
  { unfold add_policy_targets. apply preserves_for_each. intros item _.
    apply preserves_for_each. intros obs _.
    apply add_policy_target_preserves_simplexes. }
  intros _. apply preserves_bind; [apply preserves_get | intro w0].
  destruct (length (buffer (reservoir_buffer w0)) <? batch_size)%nat;
    [apply preserves_ret|].
  apply preserves_bind;
    [apply random_only_preserves_simplexes, random_only_buffer_sample | intro samples].
  unfold fit_on_samples.
  apply preserves_bind; [apply preserves_lift | intro states].
  apply preserves_bind; [apply preserves_lift | intro targets].
  apply preserves_bind; [apply preserves_lift | intro states'].
  apply strategy_fit_preserves_simplexes.
Qed.

End SimplexBuffer.

Section SimplexBufferExamples.

Import Examples.

Lemma update_strategy_network_keeps_simplexes_witness :
  buffer_holds_simplexes (fresh_world 1) /\
  buffer_holds_simplexes
    (snd (update_strategy_network 2 silent_fit two_observations 1 10 (fresh_world 1))).
Proof.
  assert (H : buffer_holds_simplexes (fresh_world 1)) by constructor.
  split; [exact H|].
  apply (update_strategy_network_keeps_simplexes 2 silent_fit two_observations 1 10
           (fresh_world 1) H).
Defined.

End SimplexBufferExamples.

Section UpdateOutcomes.

Variable input_size : nat.
Variable strategy_net_fit : ndarray -> ndarray -> nat -> Result unit.

Lemma for_each_returns_or_raises {A : Type} (body : A -> M unit) (xs : list A) (e : exn) :
  (forall x w, exists w', body x w = (Ok tt, w') \/ body x w = (Raise e, w')) ->
  forall w, exists w',
    for_each body xs w = (Ok tt, w') \/ for_each body xs w = (Raise e, w').
Proof.
  intro Hb. induction xs as [|x xs IH]; intro w; simpl.
  - exists w. now left.
  - unfold bind. destruct (Hb x w) as [w1 [-> | ->]].
    + apply IH.
    + exists w1. now right.
Qed.

Lemma for_each_raises {A : Type} (body : A -> M unit) (xs : list A) (e : exn) :
  (forall x w, exists w', body x w = (Ok tt, w') \/ body x w = (Raise e, w')) ->
  Exists (fun x => forall w, exists w', body x w = (Raise e, w')) xs ->
  forall w, exists w', for_each body xs w = (Raise e, w').
Proof.
  intros Hb Hex. induction Hex as [x xs Hx | x xs _ IH]; intro w; simpl; unfold bind.
  - destruct (Hx w) as [w1 ->]. now exists w1.
  - destruct (Hb x w) as [w1 [-> | ->]]; [apply IH | now exists w1].
Qed.

Lemma add_policy_target_outcome (obs : ndarray * list Q) (w : World) :
  exists w',
    add_policy_target obs w = (Ok tt, w') \/
    add_policy_target obs w = (Raise ValueError, w').
Proof.
  destruct obs as [encoded_state [|a v]].
  - exists w. right. reflexivity.
  - destruct (add_policy_target_returns (encoded_state, a :: v) w) as [w' H];
      [discriminate|].
    exists w'. now left.
Qed.

(** An empty advantage vector anywhere in [advantages] makes the call
    raise numpy's [ValueError]; neither estimator is called. *)
Theorem update_strategy_network_empty_vector
    (advantages : list (string * list (ndarray * list Q)))
    (batch_size epochs : nat) (w : World) :
  Exists (fun item => Exists (fun obs => snd obs = []) (snd item)) advantages ->
  exists w',
    update_strategy_network input_size strategy_net_fit advantages batch_size epochs w
      = (Raise ValueError, w') /\
    strategy_fit_calls w' = strategy_fit_calls w /\
    advantage_fit_calls w' = advantage_fit_calls w.
Proof.
  intro Hex.
  assert (Hadd : exists w', add_policy_targets advantages w = (Raise ValueError, w')).
  { unfold add_policy_targets. apply for_each_raises.
    - intros item w0. apply for_each_returns_or_raises. apply add_policy_target_outcome.
    - eapply Exists_impl; [|exact Hex]. intros item Hitem w0.
      apply for_each_raises; [apply add_policy_target_outcome|].
      eapply Exists_impl; [|exact Hitem]. intros [encoded_state v] Hv w1.
      simpl in Hv. subst v. exists w1. reflexivity. }
  destruct Hadd as [w' Hadd]. exists w'.
  pose proof (fit_free_add_policy_targets advantages w) as [Hs Ha].
  rewrite Hadd in Hs, Ha. simpl in Hs, Ha.
  split; [|split; assumption].
  unfold update_strategy_network, bind at 1. rewrite Hadd. reflexivity.
Qed.

(** The call fits the strategy estimator at most once and never the
    advantage estimator.  When it does fit, the states and the policy
    targets are assembled from the same [batch_size] entries, taken from
    the buffer as the call leaves it, and [epochs] is passed on. *)
Theorem update_strategy_network_single_fit
    (advantages : list (string * list (ndarray * list Q)))
    (batch_size epochs : nat) (w : World) :
  advantage_fit_calls
      (snd (update_strategy_network input_size strategy_net_fit
              advantages batch_size epochs w))
    = advantage_fit_calls w /\
  (strategy_fit_calls
       (snd (update_strategy_network input_size strategy_net_fit
               advantages batch_size epochs w))
     = strategy_fit_calls w
   \/
   exists samples states targets,
     length samples = batch_size /\
     incl samples
       (buffer (reservoir_buffer
          (snd (update_strategy_network input_size strategy_net_fit
                  advantages batch_size epochs w)))) /\
     guarded_stack input_size (map fst samples) states /\
     np_array (map (fun s => vector (snd s)) samples) = Ok targets /\
     strategy_fit_calls
         (snd (update_strategy_network input_size strategy_net_fit
                 advantages batch_size epochs w))
       = strategy_fit_calls w ++ [mk_fit states targets epochs]).
Proof.
  pose proof (fit_free_add_policy_targets advantages w) as [Hs Ha].
  destruct (add_policy_targets advantages w) as [[[] | e] w1] eqn:Hadd;
    simpl in Hs, Ha.
  2:{ assert (Hupd : update_strategy_network input_size strategy_net_fit
                        advantages batch_size epochs w = (Raise e, w1)).
      { unfold update_strategy_network, bind at 1. rewrite Hadd. reflexivity. }
      rewrite Hupd. simpl. split; [exact Ha | left; exact Hs]. }
  rewrite (update_strategy_network_after_add input_size strategy_net_fit
             advantages batch_size epochs w w1 Hadd).
  destruct (Nat.lt_ge_cases (length (buffer (reservoir_buffer w1))) batch_size)
    as [Hlt | Hge].
  { replace (length (buffer (reservoir_buffer w1)) <? batch_size)%nat with true
      by (symmetry; apply Nat.ltb_lt, Hlt).
    simpl. split; [exact Ha | left; exact Hs]. }
  destruct (buffer_sample_ok batch_size w1 Hge)
    as (samples & w2 & Hsample & Hlen & Hincl & Hb & _ & Hs2 & Ha2).
  replace (length (buffer (reservoir_buffer w1)) <? batch_size)%nat with false
    by (symmetry; apply Nat.ltb_ge, Hge).
  assert (Hrest : bind (buffer_sample batch_size)
                    (fun samples0 =>
                       fit_on_samples input_size strategy_net_fit samples0 epochs) w1
                  = fit_on_samples input_size strategy_net_fit samples epochs w2).
  { unfold bind. rewrite Hsample. reflexivity. }
  rewrite Hrest. clear Hrest.
  destruct (np_array (map fst samples)) as [raw | e] eqn:Hraw.
  2:{ assert (Hf : fit_on_samples input_size strategy_net_fit samples epochs w2
                   = (Raise e, w2))
        by (unfold fit_on_samples, bind, lift; rewrite Hraw; reflexivity).
      rewrite Hf. simpl. split; [congruence | left; congruence]. }
  destruct (np_array (map (fun s => vector (snd s)) samples)) as [targets | e] eqn:Ht.
  2:{ assert (Hf : fit_on_samples input_size strategy_net_fit samples epochs w2
                   = (Raise e, w2))
        by (unfold fit_on_samples, bind, lift; rewrite Hraw, Ht; reflexivity).
      rewrite Hf. simpl. split; [congruence | left; congruence]. }
  destruct (reshape_guard input_size raw) as [states | e] eqn:Hg.
  2:{ assert (Hf : fit_on_samples input_size strategy_net_fit samples epochs w2
                   = (Raise e, w2))
        by (unfold fit_on_samples, bind, lift; rewrite Hraw, Ht, Hg; reflexivity).
      rewrite Hf. simpl. split; [congruence | left; congruence]. }
  rewrite (fit_on_samples_records input_size strategy_net_fit samples epochs w2
             raw states targets Hraw Ht Hg).
  simpl. split; [congruence|]. right.
  exists samples, states, targets.
  split; [exact Hlen|]. split; [rewrite Hb; exact Hincl|].
  split; [exists raw; split; assumption|].
  split; [exact Ht | congruence].
Qed.

End UpdateOutcomes.

Section UpdateOutcomesExamples.

Import Examples.

Lemma update_strategy_network_empty_vector_witness :
  Exists (fun item => Exists (fun obs => snd obs = []) (snd item))
         [ ("infoset"%string,
            [ (encode_row (mk_state [] 10 10), [1; 2]);
              (encode_row (mk_state [] 5 0), []) ]) ] /\
  exists w',
    update_strategy_network 2 silent_fit
        [ ("infoset"%string,
           [ (encode_row (mk_state [] 10 10), [1; 2]);
             (encode_row (mk_state [] 5 0), []) ]) ]
        1 10 (fresh_world 4)
      = (Raise ValueError, w') /\
    strategy_fit_calls w' = [] /\
    advantage_fit_calls w' = [].
Proof.
  assert (H : Exists (fun item => Exists (fun obs => snd obs = []) (snd item))
                [ ("infoset"%string,
                   [ (encode_row (mk_state [] 10 10), [1; 2]);
                     (encode_row (mk_state [] 5 0), []) ]) ]).
  { apply Exists_cons_hd. apply Exists_cons_tl, Exists_cons_hd. reflexivity. }
  split; [exact H|].
  apply (update_strategy_network_empty_vector 2 silent_fit _ 1 10 (fresh_world 4) H).
Defined.

End UpdateOutcomesExamples.

(* ================================================================== *)
(** ** The reshape guard on arbitrary batches *)

Section ReshapeGuardGeneral.

Variable input_size : nat.

(** Whatever the guard returns holds the data and the number of
    elements of its argument and is not of rank 3; a rank-3 argument
    comes back with [input_size] columns. *)
Theorem reshape_guard_keeps_elements (a g : ndarray) :
  reshape_guard input_size a = Ok g ->
  data g = data a /\
  size_of (shape g) = size_of (shape a) /\
  length (shape g) <> 3%nat /\
  (length (shape a) = 3%nat ->
     shape g = [(size_of (shape a) / input_size)%nat; input_size]).
Proof.
  unfold reshape_guard, reshape.
  destruct (length (shape a) =? 3)%nat eqn:Hrank.
  - destruct (input_size =? 0)%nat eqn:Hk; [discriminate|].
    destruct (size_of (shape a) mod input_size =? 0)%nat eqn:Hmod; [|discriminate].
    intro H. injection H as <-. cbn [data shape size_of fold_right length].
    apply Nat.eqb_neq in Hk. apply Nat.eqb_eq in Hmod.
    repeat split; try lia.
    rewrite Nat.mul_1_r.
    pose proof (Nat.div_mod_eq (size_of (shape a)) input_size) as Hdm.
    rewrite Hmod in Hdm. lia.
  - intro H. injection H as <-. apply Nat.eqb_neq in Hrank.
    repeat split; [exact Hrank | intro; contradiction].
Qed.

(** The guard does not compare the row width with [input_size]: [n]
    stacked rows of shape (1, width) come out as [n * width / input_size]
    rows when [input_size] divides [n * width], and make numpy raise
    [ValueError] otherwise. *)
Theorem reshape_guard_any_width (rows : list ndarray) (width : nat) :
  (0 < input_size)%nat ->
  rows <> [] ->
  Forall (fun r => shape r = [1%nat; width]) rows ->
  exists raw,
    np_array rows = Ok raw /\
    shape raw = [length rows; 1%nat; width] /\
    reshape_guard input_size raw =
      if ((length rows * width) mod input_size =? 0)%nat
      then Ok {| shape := [(length rows * width / input_size)%nat; input_size];
                 data := concat (map data rows) |}
      else Raise ValueError.
Proof.
  intros Hpos Hne Hall.
  eexists. split; [apply (np_array_uniform rows [1%nat; width] Hne Hall)|].
  split; [reflexivity|].
  unfold reshape_guard, reshape. cbn [shape length Nat.eqb data size_of fold_right].
  replace (input_size =? 0)%nat with false by (symmetry; apply Nat.eqb_neq; lia).
  replace (length rows * (1 * (width * 1)))%nat with (length rows * width)%nat by lia.
  reflexivity.
Qed.

End ReshapeGuardGeneral.

Section ReshapeGuardGeneralExamples.

Import Examples.

Lemma reshape_guard_keeps_elements_witness :
  reshape_guard 2 (mk_ndarray [3%nat; 1%nat; 2%nat] [1; 2; 3; 4; 5; 6])
    = Ok (mk_ndarray [3%nat; 2%nat] [1; 2; 3; 4; 5; 6]) /\
  size_of [3%nat; 2%nat] = size_of [3%nat; 1%nat; 2%nat].
Proof.
  assert (H : reshape_guard 2 (mk_ndarray [3%nat; 1%nat; 2%nat] [1; 2; 3; 4; 5; 6])
              = Ok (mk_ndarray [3%nat; 2%nat] [1; 2; 3; 4; 5; 6])) by reflexivity.
  split; [exact H|].
  exact (proj1 (proj2 (reshape_guard_keeps_elements 2 _ _ H))).
Defined.

(** Rows twice as wide as [input_size] double the number of rows. *)
Lemma reshape_guard_any_width_witness :
  (0 < 1)%nat /\
  map encode_row pool_with_zero_sum <> [] /\
  Forall (fun r => shape r = [1%nat; 2%nat]) (map encode_row pool_with_zero_sum) /\
  exists raw,
    np_array (map encode_row pool_with_zero_sum) = Ok raw /\
    shape raw = [2%nat; 1%nat; 2%nat] /\
    reshape_guard 1 raw = Ok {| shape := [4%nat; 1%nat]; data := [10; 10; 5; 0] |}.
Proof.
  assert (Hall : Forall (fun r => shape r = [1%nat; 2%nat])
                        (map encode_row pool_with_zero_sum))
    by (repeat constructor).
  split; [lia|]. split; [discriminate|]. split; [exact Hall|].
  destruct (reshape_guard_any_width 1 (map encode_row pool_with_zero_sum) 2)
    as (raw & Hraw & Hshape & Hguard); [lia | discriminate | exact Hall |].
  exists raw. split; [exact Hraw|]. split; [exact Hshape|]. exact Hguard.
Defined.

End ReshapeGuardGeneralExamples.

(* ================================================================== *)
(** ** evaluate_cfr_training: what is logged, and when *)

Section HoareFacts.

Lemma hoare_bind {A B : Type} (P : World -> Prop) (m : M A) (k : A -> M B)
    (Q1 : A -> World -> Prop) (Q : B -> World -> Prop) (E : exn -> World -> Prop) :
  hoare P m Q1 E ->
  (forall a, hoare (Q1 a) (k a) Q E) ->
  hoare P (bind m k) Q E.
Proof.
  intros Hm Hk w Hw. unfold bind. specialize (Hm w Hw).
  destruct (m w) as [[a | e] w1]; [apply Hk, Hm | exact Hm].
Qed.

Lemma hoare_consequence {A : Type} (P P' : World -> Prop) (m : M A)
    (Q Q' : A -> World -> Prop) (E E' : exn -> World -> Prop) :
  hoare P m Q E ->
  (forall w, P' w -> P w) ->
  (forall a w, Q a w -> Q' a w) ->
  (forall e w, E e w -> E' e w) ->
  hoare P' m Q' E'.
Proof.
  intros Hm HP HQ HE w Hw. specialize (Hm w (HP w Hw)).
  destruct (m w) as [[a | e] w1]; [apply HQ, Hm | apply HE, Hm].
Qed.

(** A computation that only draws random numbers keeps every property
    that does not mention the generators. *)
Lemma hoare_random_only {A : Type} (I : World -> Prop) (m : M A) :
  (forall w w', untouched w w' -> I w -> I w') ->
  random_only m ->
  hoare I m (fun _ => I) (fun _ => I).
Proof.
  intros Hstable Hm w Hw. specialize (Hm w).
  destruct (m w) as [[a | e] w1]; simpl in Hm; eapply Hstable; eassumption.
Qed.

Lemma progress_stable (k c : nat) (w w' : World) :
  untouched w w' -> progress k c w -> progress k c w'.
Proof.
  intros (_ & Hh & _ & Ha) [Hl Hc]. unfold progress. now rewrite Hh, Ha.
Qed.

End HoareFacts.

Section TrainingProgress.

Variable encode_state : GameState -> ndarray.
Variable input_size : nat.
Variable advantage_net_fit : ndarray -> ndarray -> nat -> Result Q.
Variable presentation : MetricHistory -> list GameState -> Result unit.

Lemma hoare_progress_random {A : Type} (k c : nat) (m : M A)
    (E : exn -> World -> Prop) :
  random_only m ->
  (forall e w, progress k c w -> E e w) ->
  hoare (progress k c) m (fun _ => progress k c) E.
Proof.
  intros Hm HE.
  eapply hoare_consequence;
    [apply (hoare_random_only (progress k c) m (progress_stable k c) Hm) | | |];
    auto.
Qed.

Lemma hoare_advantage_fit (k c : nat) (inputs targets : ndarray) (epochs : nat) :
  hoare (progress k c)
        (advantage_fit advantage_net_fit inputs targets epochs)
        (fun _ => progress k (S c))
        (fun _ => progress k (S c)).
Proof.
  intros w [Hl Hc]. unfold advantage_fit, bind, modify, lift.
  assert (Hp : progress k (S c)
                 (record_advantage_fit (mk_fit inputs targets epochs) w)).
  { split; [exact Hl|]. simpl. rewrite length_app. simpl. lia. }
  destruct (advantage_net_fit inputs targets epochs); exact Hp.
Qed.

Lemma hoare_log_metrics (k c : nat) (a b d r : Q) (E : exn -> World -> Prop) :
  hoare (progress k c)
        (log_metrics k (Some a) (Some b) (Some d) (Some r))
        (fun _ => progress (S k) c) E.
Proof.
  intros w [(He & H1 & H2 & H3 & H4) Hc]. unfold log_metrics, modify.
  split; [|exact Hc]. unfold logged. rewrite seq_S. simpl.
  rewrite !length_app, He, H1, H2, H3, H4. simpl.
  repeat split; lia.
Qed.

(** One iteration either logs one more epoch after one more call of the
    estimator, or raises leaving the history as it found it. *)
Lemma hoare_training_iteration (current_state : list GameState) (k c : nat) :
  hoare (progress k c)
        (training_iteration encode_state input_size advantage_net_fit current_state k)
        (fun _ => progress (S k) (S c))
        (fun _ w' => progress k c w' \/ progress k (S c) w').
Proof.
  unfold training_iteration. cbv zeta.
  eapply hoare_bind.
  { apply hoare_progress_random; [apply random_only_np_random_choice | now left]. }
  intro batch_indices. eapply hoare_bind.
  { apply hoare_progress_random; [|now left].
    apply random_only_map_m. intro. apply random_only_getitem. }
  intro batch_states. eapply hoare_bind.
  { apply hoare_progress_random; [apply random_only_lift | now left]. }
  intro raw. eapply hoare_bind.
  { apply hoare_progress_random; [apply random_only_lift | now left]. }
  intro encoded_states. eapply hoare_bind.
  { apply hoare_progress_random; [apply random_only_np_random_rand | now left]. }
  intro targets. eapply hoare_bind with (Q1 := fun _ => progress k (S c)).
  { eapply hoare_consequence;
      [ apply (hoare_advantage_fit k c)
      | intros w Hw; exact Hw
      | intros a w Hw; exact Hw
      | intros e w Hw; right; exact Hw ]. }
  intro loss. eapply hoare_bind.
  { apply hoare_progress_random; [apply random_only_random_random | now right]. }
  intro r. eapply hoare_bind.
  { apply hoare_progress_random;
      [apply random_only_evaluate_declaration_accuracy | now right]. }
  intro metrics. eapply hoare_bind.
  { apply hoare_progress_random; [apply random_only_evaluate_win_rate | now right]. }
  intro rate. apply hoare_log_metrics.
Qed.

Lemma hoare_training_loop (current_state : list GameState) (n k c : nat) :
  hoare (progress k c)
        (for_each (training_iteration encode_state input_size advantage_net_fit
                     current_state)
                  (seq k n))
        (fun _ => progress (k + n) (c + n))
        (fun _ w' => exists j, (j < n)%nat /\
                       (progress (k + j) (c + j) w' \/ progress (k + j) (S (c + j)) w')).
Proof.
  revert k c. induction n as [|n IH]; intros k c; cbn [seq for_each].
  - intros w Hw. unfold ret. now rewrite !Nat.add_0_r.
  - eapply hoare_bind with (Q1 := fun _ => progress (S k) (S c)).
    + eapply hoare_consequence;
        [ apply hoare_training_iteration
        | intros w Hw; exact Hw
        | intros a w Hw; exact Hw
        | ].
      intros e w Hw. exists 0%nat. rewrite !Nat.add_0_r. split; [lia | exact Hw].
    + intros _. eapply hoare_consequence;
        [ apply (IH (S k) (S c)) | intros w Hw; exact Hw | | ].
      * intros a w Hw. cbn beta in Hw |- *.
        now replace (k + S n)%nat with (S k + n)%nat by lia;
            replace (c + S n)%nat with (S c + n)%nat by lia.
      * intros e w (j & Hj & Hw). exists (S j). split; [lia|].
        now replace (k + S j)%nat with (S k + j)%nat by lia;
            replace (c + S j)%nat with (S c + j)%nat by lia.
Qed.

Lemma hoare_evaluate_cfr_training
    (current_state : list GameState) (iterations : nat) (w : World) :
  hoare (fun w0 => w0 = w)
    (evaluate_cfr_training encode_state input_size advantage_net_fit
       presentation current_state iterations)
    (fun h w' =>
       h = history w' /\
       progress iterations (length (advantage_fit_calls w) + iterations) w')
    (fun _ w' =>
       exists k, (k <= iterations)%nat /\
         (progress k (length (advantage_fit_calls w) + k) w' \/
          progress k (S (length (advantage_fit_calls w) + k)) w')).
Proof.
  set (c := length (advantage_fit_calls w)).
  unfold evaluate_cfr_training.
  eapply hoare_bind with (Q1 := fun _ => progress 0 c).
  { intros w0 ->. unfold modify. split; [|reflexivity].
    repeat split. }
  intros _. eapply hoare_bind with (Q1 := fun _ => progress iterations (c + iterations)).
  { eapply hoare_consequence;
      [ apply (hoare_training_loop current_state iterations 0 c)
      | intros w0 Hw0; exact Hw0
      | intros a w0 Hw0; exact Hw0
      | ].
    intros e w0 (j & Hj & Hw0). exists j. split; [lia | exact Hw0]. }
  intros _.
  eapply hoare_bind
    with (Q1 := fun w0 w' => w0 = w' /\ progress iterations (c + iterations) w').
  { intros w0 Hw0. unfold get. split; [reflexivity | exact Hw0]. }
  intro w0.
  eapply hoare_bind
    with (Q1 := fun _ w' => w0 = w' /\ progress iterations (c + iterations) w').
  { intros w1 [<- Hw1]. unfold lift.
    destruct (presentation (history w0) current_state).
    - split; [reflexivity | exact Hw1].
    - exists iterations. split; [lia | left; exact Hw1]. }
  intros _ w1 [<- Hw1]. unfold ret. split; [reflexivity | exact Hw1].
Qed.

(** However the call ends, the history it leaves is whole: on return it
    is the returned history and holds epochs 0 .. iterations-1 with one
    value of each of the four metrics per epoch, after exactly
    [iterations] calls of the advantage estimator; on an exception it
    holds the epochs of the [k <= iterations] iterations that completed,
    one value per metric each, after [k] or [k + 1] calls.  The history
    found in the incoming world plays no part. *)
Theorem evaluate_cfr_training_history
    (current_state : list GameState) (iterations : nat) (w : World) :
  match evaluate_cfr_training encode_state input_size advantage_net_fit
          presentation current_state iterations w with
  | (Ok h, w') =>
      h = history w' /\
      logged iterations h /\
      length (advantage_fit_calls w')
        = (length (advantage_fit_calls w) + iterations)%nat
  | (Raise e, w') =>
      exists k,
        (k <= iterations)%nat /\
        logged k (history w') /\
        (length (advantage_fit_calls w')
           = (length (advantage_fit_calls w) + k)%nat \/
         length (advantage_fit_calls w')
           = S (length (advantage_fit_calls w) + k))
  end.
Proof.
  pose proof (hoare_evaluate_cfr_training current_state iterations w w eq_refl) as H.
  destruct (evaluate_cfr_training encode_state input_size advantage_net_fit
              presentation current_state iterations w) as [[h | e] w'].
  - destruct H as (Hh & Hl & Hc). subst h.
    split; [reflexivity | split; [exact Hl | exact Hc]].
  - destruct H as (k & Hk & [[Hl Hc] | [Hl Hc]]); exists k;
      (split; [exact Hk | split; [exact Hl|]]); [left | right]; exact Hc.
Qed.

End TrainingProgress.

(* ================================================================== *)
(** ** Values returned and exceptions raised *)

Section OutcomeFacts.

Lemma outcome_bind {A B : Type} (m : M A) (k : A -> M B)
    (R : A -> Prop) (R' : B -> Prop) (X : exn -> Prop) :
  outcome m R X ->
  (forall a, R a -> outcome (k a) R' X) ->
  outcome (bind m k) R' X.
Proof.
  intros Hm Hk w. unfold bind. specialize (Hm w).
  destruct (m w) as [[a | e] w1]; [apply (Hk a Hm) | exact Hm].
Qed.

Lemma outcome_weaken {A : Type} (m : M A)
    (R R' : A -> Prop) (X X' : exn -> Prop) :
  outcome m R X ->
  (forall a, R a -> R' a) ->
  (forall e, X e -> X' e) ->
  outcome m R' X'.
Proof.
  intros Hm HR HX w. specialize (Hm w).
  destruct (m w) as [[a | e] w1]; [apply HR, Hm | apply HX, Hm].
Qed.

Lemma outcome_ret {A : Type} (a : A) (R : A -> Prop) (X : exn -> Prop) :
  R a -> outcome (ret a) R X.
Proof. intros Ha w. exact Ha. Qed.

Lemma outcome_get (X : exn -> Prop) : outcome get (fun _ => True) X.
Proof. intro w. exact Logic.I. Qed.

Lemma outcome_lift {A : Type} (r : Result A) (R : A -> Prop) (X : exn -> Prop) :
  match r with Ok a => R a | Raise e => X e end ->
  outcome (lift r) R X.
Proof. intros Hr w. unfold lift. destruct r; exact Hr. Qed.

Lemma outcome_map_m {A B : Type} (f : A -> M B) (xs : list A)
    (R : B -> Prop) (X : exn -> Prop) :
  (forall x, In x xs -> outcome (f x) R X) ->
  outcome (map_m f xs) (fun ys => Forall R ys /\ length ys = length xs) X.
Proof.
  induction xs as [|x xs IH]; intro Hf; simpl.
  - apply outcome_ret. split; [constructor | reflexivity].
  - eapply outcome_bind; [apply Hf; now left|].
    intros y Hy. eapply outcome_bind.
    + apply IH. intros z Hz. apply Hf. now right.
    + intros ys [Hys Hlen]. apply outcome_ret.
      split; [now constructor | simpl; now rewrite Hlen].
Qed.

Lemma outcome_for_each {A : Type} (body : A -> M unit) (xs : list A)
    (X : exn -> Prop) :
  (forall x, In x xs -> outcome (body x) (fun _ => True) X) ->
  outcome (for_each body xs) (fun _ => True) X.
Proof.
  induction xs as [|x xs IH]; intro Hb; simpl.
  - now apply outcome_ret.
  - eapply outcome_bind; [apply Hb; now left|].
    intros _ _. apply IH. intros z Hz. apply Hb. now right.
Qed.

Lemma outcome_random_below (bound : nat) (X : exn -> Prop) :
  outcome (random_below bound) (fun i => (0 < bound)%nat -> (i < bound)%nat) X.
Proof.
  intro w. unfold random_below.
  pose proof (next_draw_below bound (random_state w)) as H.
  destruct (next_draw bound (random_state w)) as [i rest]. exact H.
Qed.

Lemma outcome_np_random_below (bound : nat) (X : exn -> Prop) :
  outcome (np_random_below bound) (fun i => (0 < bound)%nat -> (i < bound)%nat) X.
Proof.
  intro w. unfold np_random_below.
  pose proof (next_draw_below bound (np_random_state w)) as H.
  destruct (next_draw bound (np_random_state w)) as [i rest]. exact H.
Qed.

Lemma unit_interval_bounds (i : nat) :
  (i < resolution)%nat -> in_unit_interval (unit_interval i).
Proof.
  intro Hi. unfold in_unit_interval, unit_interval.
  assert (Hres : 0 < inject_Z (Z.of_nat resolution)) by reflexivity.
  split.
  - apply Qle_shift_div_l; [exact Hres|]. rewrite Qmult_0_l.
    change 0 with (inject_Z 0). rewrite <- Zle_Qle. lia.
  - apply Qlt_shift_div_r; [exact Hres|]. rewrite Qmult_1_l.
    rewrite <- Zlt_Qlt. lia.
Qed.

Lemma outcome_random_random (X : exn -> Prop) :
  outcome random_random in_unit_interval X.
Proof.
  unfold random_random.
  eapply outcome_bind; [apply outcome_random_below|].
  intros i Hi. apply outcome_ret. apply unit_interval_bounds, Hi.
  unfold resolution. lia.
Qed.

(** [np.random.choice(a, size)] either returns [size] indices below [a]
    or, for an empty range, raises [ValueError]. *)
Lemma outcome_np_random_choice (a size : nat) :
  outcome (np_random_choice a size)
          (fun indices => length indices = size /\
                          Forall (fun i => (i < a)%nat) indices)
          (fun e => e = ValueError /\ a = 0%nat).
Proof.
  unfold np_random_choice.
  destruct (a =? 0)%nat eqn:Ha; cbn [andb].
  - apply Nat.eqb_eq in Ha. destruct (size =? 0)%nat eqn:Hs; cbn [negb].
    + apply Nat.eqb_eq in Hs. subst size. cbn [repeat map_m].
      apply outcome_ret. split; [reflexivity | constructor].
    + intro w. split; [reflexivity | exact Ha].
  - apply Nat.eqb_neq in Ha.
    eapply outcome_weaken.
    + apply (outcome_map_m (fun _ => np_random_below a) (repeat tt size)
               (fun i => (i < a)%nat) no_exception).
      intros x _. eapply outcome_weaken; [apply outcome_np_random_below | |].
      * intros i Hi. apply Hi. lia.
      * intros e He. exact He.
    + intros indices [Hall Hlen]. rewrite repeat_length in Hlen. now split.
    + intros e [].
Qed.

Lemma outcome_getitem {A : Type} (xs : list A) (i : nat) (X : exn -> Prop) :
  (i < length xs)%nat -> outcome (getitem xs i) (fun x => In x xs) X.
Proof.
  intros Hi w. unfold getitem.
  destruct (nth_error xs i) as [x|] eqn:Hx.
  - eapply nth_error_In, Hx.
  - apply nth_error_None in Hx. lia.
Qed.

(** [np.random.rand(rows, cols)] returns a full array of numbers in
    [0, 1). *)
Lemma outcome_np_random_rand (rows cols : nat) (X : exn -> Prop) :
  outcome (np_random_rand rows cols)
          (fun t => shape t = [rows; cols] /\
                    length (data t) = (rows * cols)%nat /\
                    Forall in_unit_interval (data t))
          X.
Proof.
  unfold np_random_rand.
  eapply outcome_bind.
  - apply (outcome_map_m (fun _ => np_random_below resolution)
             (repeat tt (rows * cols)) (fun i => (i < resolution)%nat) X).
    intros x _. eapply outcome_weaken; [apply outcome_np_random_below | |].
    + intros i Hi. apply Hi. unfold resolution. lia.
    + intros e He. exact He.
  - intros draws [Hall Hlen]. apply outcome_ret. cbn [shape data].
    rewrite repeat_length in Hlen.
    split; [reflexivity|]. split; [now rewrite length_map|].
    apply Forall_forall. intros x Hx.
    apply in_map_iff in Hx as (i & <- & Hi).
    rewrite Forall_forall in Hall. apply unit_interval_bounds, Hall, Hi.
Qed.

End OutcomeFacts.

(* ================================================================== *)
(** ** evaluate_win_rate *)

Section WinRate.

Lemma outcome_play_games (opponent : string) (n wins : nat) :
  outcome (play_games opponent n wins)
          (fun total => (wins <= total <= wins + n)%nat)
          no_exception.
Proof.
  revert wins. induction n as [|n IH]; intro wins; simpl.
  - apply outcome_ret. lia.
  - eapply outcome_bind; [apply (outcome_random_random no_exception)|].
    intros result _. eapply outcome_bind; [apply outcome_get|].
    intros w0 _. eapply outcome_weaken; [apply IH | | auto].
    intros total Ht. cbv beta in Ht.
    destruct (Qgtb (win_threshold opponent (history w0)) result); lia.
Qed.

(** The call raises exactly when [num_games] is 0, and then it is the
    division by zero, raised without any draw; otherwise it returns
    [wins / num_games] for some [wins <= num_games], a number between 0
    and 1, having touched nothing but the generator. *)
Theorem evaluate_win_rate_outcome (num_games : nat) (opponent : string) (w : World) :
  match evaluate_win_rate num_games opponent w with
  | (Ok rate, w') =>
      (0 < num_games)%nat /\
      (exists wins,
         (wins <= num_games)%nat /\
         rate = inject_Z (Z.of_nat wins) / inject_Z (Z.of_nat num_games)) /\
      is_rate rate /\
      untouched w w'
  | (Raise e, w') =>
      num_games = 0%nat /\ e = Exception "ZeroDivisionError" /\ w' = w
  end.
Proof.
  pose proof (random_only_evaluate_win_rate num_games opponent w) as Hu.
  unfold evaluate_win_rate in *. unfold bind in *.
  pose proof (outcome_play_games opponent num_games 0 w) as Hp.
  destruct (play_games opponent num_games 0 w) as [[wins | e] w1] eqn:Hplay;
    [|contradiction].
  destruct num_games as [|n].
  - simpl in Hplay. unfold ret in Hplay. injection Hplay as _ <-.
    cbn [Nat.eqb]. unfold raise. repeat split.
  - cbn [Nat.eqb] in *. unfold ret in *. simpl in Hu.
    split; [lia|]. split; [exists wins; split; [lia | reflexivity]|].
    split; [|exact Hu].
    assert (Hn : 0 < inject_Z (Z.of_nat (S n))).
    { change 0 with (inject_Z 0). rewrite <- Zlt_Qlt. lia. }
    split.
    + apply Qle_shift_div_l; [exact Hn|]. rewrite Qmult_0_l.
      change 0 with (inject_Z 0). rewrite <- Zle_Qle. lia.
    + apply Qle_shift_div_r; [exact Hn|]. rewrite Qmult_1_l.
      rewrite <- Zle_Qle. lia.
Qed.

(** The per-game threshold against the random opponent starts at 1/2,
    rises by 1/100 per logged epoch and stays at 9/10 from 40 logged
    epochs on; against any other opponent it is 1/2. *)
Theorem win_threshold_shape (opponent : string) (h : MetricHistory) :
  1 # 2 <= win_threshold opponent h /\
  win_threshold opponent h <= 9 # 10 /\
  (opponent <> "random"%string -> win_threshold opponent h == 1 # 2) /\
  (opponent = "random"%string -> (length (epoch h) <= 40)%nat ->
     win_threshold opponent h
       == (1 # 2) + inject_Z (Z.of_nat (length (epoch h))) * (1 # 100)) /\
  (opponent = "random"%string -> (40 <= length (epoch h))%nat ->
     win_threshold opponent h == 9 # 10).
Proof.
  unfold win_threshold.
  set (n := inject_Z (Z.of_nat (length (epoch h)))).
  assert (Hn : 0 <= n).
  { unfold n. change 0 with (inject_Z 0). rewrite <- Zle_Qle. lia. }
  destruct (String.eqb_spec opponent "random") as [Heq | Hneq].
  - split; [apply Q.min_glb; lra|]. split; [apply Q.le_min_r|].
    split; [intro H; contradiction|]. split.
    + intros _ Hle.
      assert (n <= 40).
      { unfold n. change 40 with (inject_Z 40). rewrite <- Zle_Qle. lia. }
      rewrite Q.min_l by lra. lra.
    + intros _ Hge.
      assert (40 <= n).
      { unfold n. change 40 with (inject_Z 40). rewrite <- Zle_Qle. lia. }
      rewrite Q.min_r by lra. reflexivity.
  - split; [lra|]. split; [lra|].
    split; [intros _; lra|]. split; intro H; contradiction.
Qed.

Lemma win_threshold_shape_witness :
  ("mirror"%string <> "random"%string ->
     win_threshold "mirror" empty_history == 1 # 2) /\
  ("random"%string = "random"%string -> (0 <= 40)%nat ->
     win_threshold "random" empty_history == 1 # 2).
Proof.
  destruct (win_threshold_shape "mirror" empty_history) as (_ & _ & Hother & _).
  destruct (win_threshold_shape "random" empty_history) as (_ & _ & _ & Hlow & _).
  split; [exact Hother|].
  intros Heq Hle. rewrite (Hlow Heq Hle). reflexivity.
Defined.

End WinRate.

(* ================================================================== *)
(** ** evaluate_declaration_accuracy: ranges, errors, the full sample *)

Section DeclarationAccuracyOutcome.

Import Worded.

Variable encode_state : GameState -> ndarray.

Lemma fraction_is_rate (p : GameState -> bool) (states : list GameState) :
  states <> [] -> is_rate (fraction p states).
Proof.
  intro Hne. unfold fraction, is_rate.
  assert (Hn : 0 < inject_Z (Z.of_nat (length states))).
  { change 0 with (inject_Z 0). rewrite <- Zlt_Qlt.
    destruct states; [congruence | cbn [length]; lia]. }
  pose proof (filter_length_le p states) as Hle.
  split.
  - apply Qle_shift_div_l; [exact Hn|]. rewrite Qmult_0_l.
    change 0 with (inject_Z 0). rewrite <- Zle_Qle. lia.
  - apply Qle_shift_div_r; [exact Hn|]. rewrite Qmult_1_l.
    rewrite <- Zle_Qle. lia.
Qed.

Lemma np_sum_nonneg (xs : list Q) : Forall (fun x => 0 <= x) xs -> 0 <= np_sum xs.
Proof. intro H. pose proof (np_sum_lower xs 0 H). lra. Qed.

Lemma is_rate_eq (x y : Q) : x == y -> is_rate y -> is_rate x.
Proof. intros Hxy [H0 H1]. unfold is_rate. rewrite Hxy. now split. Qed.

(** The call raises exactly when [num_samples] is negative, and then it
    is [random.sample]'s [ValueError], raised before any draw.
    Otherwise it returns an accuracy and an overestimation rate between
    0 and 1, an average ratio that is not negative when no declared
    value is, and has touched nothing but the generator. *)
Theorem evaluate_declaration_accuracy_outcome
    (test_states : list GameState) (num_samples : Z) (w : World) :
  match evaluate_declaration_accuracy encode_state test_states num_samples w with
  | (Ok (avg_ratio, accuracy, overestimation_rate), w') =>
      (0 <= num_samples)%Z /\
      is_rate accuracy /\
      is_rate overestimation_rate /\
      (Forall (fun s => 0 <= selectaction s) test_states -> 0 <= avg_ratio) /\
      untouched w w'
  | (Raise e, w') =>
      (num_samples < 0)%Z /\ e = ValueError /\ w' = w
  end.
Proof.
  destruct (Z.lt_ge_cases num_samples 0) as [Hneg | Hpos].
  - unfold evaluate_declaration_accuracy, bind, random_sample.
    replace (sample_size test_states num_samples <? 0)%Z with true
      by (symmetry; apply Z.ltb_lt; unfold sample_size; lia).
    cbn [orb]. unfold raise. repeat split. exact Hneg.
  - pose proof (random_only_evaluate_declaration_accuracy encode_state
                  test_states num_samples w) as Hu.
    destruct (random_sample_ok test_states (sample_size test_states num_samples) w)
      as (sampled & w' & Hs & Hlen & Hincl).
    { apply sample_size_bounds, Hpos. }
    unfold evaluate_declaration_accuracy, bind in *. rewrite Hs in *.
    unfold ret in *. simpl in Hu. rewrite <- Hlen.
    destruct sampled as [|s rest].
    + cbn. split; [exact Hpos|]. unfold is_rate.
      repeat split; try lra; try exact Hu; apply Hu.
    + destruct (declaration_metrics_spec encode_state (s :: rest))
        as (a & b & c & Hm & Ha & Hb & Hc); [discriminate|].
      rewrite Hm. split; [exact Hpos|].
      split; [eapply is_rate_eq; [exact Hb | apply fraction_is_rate; discriminate]|].
      split; [eapply is_rate_eq; [exact Hc | apply fraction_is_rate; discriminate]|].
      split; [|exact Hu].
      intro Hdecl. rewrite Ha.
      apply Qle_shift_div_l.
      { change 0 with (inject_Z 0). rewrite <- Zlt_Qlt. cbn [length]. lia. }
      rewrite Qmult_0_l. apply np_sum_nonneg.
      apply Forall_forall. intros x Hx.
      apply in_map_iff in Hx as (st & <- & Hst).
      apply filter_In in Hst as [Hin Hp].
      apply positive_sum_iff in Hp.
      rewrite Forall_forall in Hdecl. specialize (Hdecl st (Hincl st Hin)).
      unfold ratio. apply Qle_shift_div_l; [exact Hp | lra].
Qed.

Lemma remove_at_permutation {A : Type} (i : nat) (xs : list A) (x : A) :
  nth_error xs i = Some x -> Permutation (x :: remove_at i xs) xs.
Proof.
  intro Hx. unfold remove_at.
  rewrite <- (firstn_skipn_middle i xs Hx) at 3.
  apply Permutation_middle.
Qed.

(** Drawing as many items as the pool holds returns the pool in some
    order. *)
Lemma draw_all_permutation {A : Type} (k : nat) (pool drawn : list A) (w w' : World) :
  k = length pool ->
  draw_without_replacement k pool w = (Ok drawn, w') ->
  Permutation drawn pool.
Proof.
  revert pool drawn w w'. induction k as [|k IH]; intros pool drawn w w' Hk Hd.
  - destruct pool; [|discriminate]. simpl in Hd. unfold ret in Hd.
    injection Hd as <- _. constructor.
  - simpl in Hd. unfold bind at 1 in Hd. unfold random_below in Hd.
    pose proof (next_draw_below (length pool) (random_state w)) as Hlt.
    destruct (next_draw (length pool) (random_state w)) as [i rest].
    simpl in Hlt. assert (Hi : (i < length pool)%nat) by (apply Hlt; lia).
    destruct (nth_error pool i) as [x|] eqn:Hx.
    2:{ apply nth_error_None in Hx. lia. }
    unfold bind in Hd.
    destruct (draw_without_replacement k (remove_at i pool) (set_random_state rest w))
      as [[drawn' | e] w1] eqn:Hrest; [|discriminate].
    unfold ret in Hd. injection Hd as <- _.
    apply IH in Hrest.
    + eapply Permutation_trans; [apply perm_skip, Hrest|].
      apply remove_at_permutation, Hx.
    + rewrite remove_at_length by exact Hi. lia.
Qed.

Lemma filter_permutation {A : Type} (p : A -> bool) (xs ys : list A) :
  Permutation xs ys -> Permutation (filter p xs) (filter p ys).
Proof.
  induction 1 as [| x xs ys _ IH | x y xs | xs ys zs _ IH1 _ IH2]; simpl.
  - constructor.
  - destruct (p x); [now constructor | exact IH].
  - destruct (p x), (p y); try apply Permutation_refl; apply perm_swap.
  - eapply Permutation_trans; eassumption.
Qed.

Lemma fraction_permutation (p : GameState -> bool) (xs ys : list GameState) :
  Permutation xs ys -> fraction p xs = fraction p ys.
Proof.
  intro H. unfold fraction.
  now rewrite (Permutation_length (filter_permutation p xs ys H)),
              (Permutation_length H).
Qed.

(** When [num_samples] is at least the number of states, the sample is
    the whole list in some order and the result does not depend on the
    generator: it is the triple computed on the list itself. *)
Theorem evaluate_declaration_accuracy_full_sample
    (test_states : list GameState) (num_samples : Z) (w : World) :
  test_states <> [] ->
  (Z.of_nat (length test_states) <= num_samples)%Z ->
  exists sampled w' avg_ratio accuracy overestimation_rate,
    evaluate_declaration_accuracy encode_state test_states num_samples w
      = (Ok (avg_ratio, accuracy, overestimation_rate), w') /\
    random_sample test_states (sample_size test_states num_samples) w
      = (Ok sampled, w') /\
    Permutation sampled test_states /\
    avg_ratio == np_sum (map ratio (filter has_positive_sum test_states))
                 / inject_Z (Z.of_nat (length test_states)) /\
    accuracy == fraction counted_accurate test_states /\
    overestimation_rate == fraction counted_overestimate test_states.
Proof.
  intros Hne Hle.
  assert (Hsize : sample_size test_states num_samples = Z.of_nat (length test_states))
    by (unfold sample_size; lia).
  destruct (random_sample_ok test_states (sample_size test_states num_samples) w)
    as (sampled & w' & Hs & Hlen & Hincl).
  { rewrite Hsize. lia. }
  assert (Hperm : Permutation sampled test_states).
  { unfold random_sample in Hs.
    destruct ((sample_size test_states num_samples <? 0)%Z
              || (Z.of_nat (length test_states) <? sample_size test_states num_samples)%Z);
      [discriminate|].
    eapply draw_all_permutation; [|exact Hs]. rewrite Hsize. lia. }
  assert (Hsne : sampled <> []).
  { intros ->. apply Permutation_nil in Hperm. congruence. }
  destruct (declaration_metrics_spec encode_state sampled Hsne)
    as (a & b & c & Hm & Ha & Hb & Hc).
  exists sampled, w', a, b, c.
  split.
  { unfold evaluate_declaration_accuracy, bind. rewrite Hs.
    unfold ret. rewrite <- Hlen, Hm. reflexivity. }
  split; [exact Hs|]. split; [exact Hperm|].
  split; [|split].
  - rewrite Ha, (Permutation_length Hperm).
    apply Qmult_comp; [|reflexivity].
    apply np_sum_permutation, Permutation_map, filter_permutation, Hperm.
  - rewrite Hb, (fraction_permutation _ _ _ Hperm). reflexivity.
  - rewrite Hc, (fraction_permutation _ _ _ Hperm). reflexivity.
Qed.

End DeclarationAccuracyOutcome.

Section DeclarationAccuracyOutcomeExamples.

Import Worded Examples.

Lemma evaluate_declaration_accuracy_full_sample_witness :
  pool_with_zero_sum <> [] /\
  (Z.of_nat (length pool_with_zero_sum) <= 100)%Z /\
  exists w' avg_ratio accuracy overestimation_rate,
    evaluate_declaration_accuracy encode_row pool_with_zero_sum 100
        (set_random_state [7%nat; 3%nat] (fresh_world 4))
      = (Ok (avg_ratio, accuracy, overestimation_rate), w') /\
    avg_ratio == 1 # 2 /\ accuracy == 1 # 2 /\ overestimation_rate == 0.
Proof.
  split; [discriminate|]. split; [simpl; lia|].
  destruct (evaluate_declaration_accuracy_full_sample encode_row pool_with_zero_sum 100
              (set_random_state [7%nat; 3%nat] (fresh_world 4)))
    as (sampled & w' & a & b & c & He & _ & _ & Ha & Hb & Hc);
    [discriminate | simpl; lia |].
  exists w', a, b, c. split; [exact He|].
  split; [rewrite Ha; reflexivity|].
  split; [rewrite Hb; reflexivity | rewrite Hc; reflexivity].
Defined.

End DeclarationAccuracyOutcomeExamples.

(* ================================================================== *)
(** ** log_metrics *)

Section LogMetrics.

Lemma append_some_supplied (x : option Q) (xs : list Q) (rest : list (option Q)) :
  append_some x xs ++ supplied rest = xs ++ supplied (x :: rest).
Proof.
  unfold supplied. cbn [flat_map]. destruct x; simpl.
  - now rewrite <- app_assoc.
  - reflexivity.
Qed.

(** A sequence of calls never fails and only appends: [epoch] receives
    every epoch index, each metric the values that were passed for it,
    in call order; nothing already logged is changed and nothing else in
    the world is touched. *)
Theorem log_metrics_appends (calls : list LogCall) (w : World) :
  exists w',
    log_all calls w = (Ok tt, w') /\
    epoch (history w') = epoch (history w) ++ map call_epoch calls /\
    advantage_loss (history w')
      = advantage_loss (history w) ++ supplied (map call_advantage_loss calls) /\
    strategy_accuracy (history w')
      = strategy_accuracy (history w) ++ supplied (map call_strategy_accuracy calls) /\
    declaration_vs_sum_ratio (history w')
      = declaration_vs_sum_ratio (history w)
        ++ supplied (map call_declaration_vs_sum_ratio calls) /\
    win_rate (history w')
      = win_rate (history w) ++ supplied (map call_win_rate calls) /\
    w' = set_history (history w') w.
Proof.
  unfold log_all. revert w. induction calls as [|c calls IH]; intro w.
  - exists w. cbn [for_each map supplied flat_map]. rewrite !app_nil_r.
    repeat split. destruct w; reflexivity.
  - cbn [for_each]. unfold bind at 1. unfold log_metrics at 1, modify.
    match goal with
    | |- context [for_each ?body calls ?w1] =>
        destruct (IH w1) as (w' & Hrun & He & H1 & H2 & H3 & H4 & Hw)
    end.
    exists w'. split; [exact Hrun|].
    cbn [history set_history epoch advantage_loss strategy_accuracy
         declaration_vs_sum_ratio win_rate] in He, H1, H2, H3, H4.
    rewrite He, H1, H2, H3, H4. cbn [map].
    rewrite !append_some_supplied, <- app_assoc.
    repeat (split; [reflexivity|]).
    rewrite Hw at 1. destruct w; reflexivity.
Qed.

End LogMetrics.

(* ================================================================== *)
(** ** evaluate_cfr_training: exceptions, return, estimator calls *)

Section TrainingOutcome.

Variable encode_state : GameState -> ndarray.
Variable input_size : nat.
Variable advantage_net_fit : ndarray -> ndarray -> nat -> Result Q.
Variable presentation : MetricHistory -> list GameState -> Result unit.

Lemma np_array_raises (rows : list ndarray) (e : exn) :
  np_array rows = Raise e -> e = ValueError.
Proof.
  unfold np_array. destruct rows as [|r rs]; [discriminate|].
  destruct (forallb (same_shape r) rs); [discriminate|].
  intro H. now injection H.
Qed.

Lemma reshape_guard_raises (a : ndarray) (e : exn) :
  reshape_guard input_size a = Raise e -> e = ValueError.
Proof.
  unfold reshape_guard, reshape.
  destruct (length (shape a) =? 3)%nat; [|discriminate].
  destruct (input_size =? 0)%nat; [intro H; now injection H|].
  destruct (size_of (shape a) mod input_size =? 0)%nat; [discriminate|].
  intro H. now injection H.
Qed.

Lemma outcome_advantage_fit (inputs targets : ndarray) (epochs : nat) :
  outcome (advantage_fit advantage_net_fit inputs targets epochs)
          (fun _ => True)
          (fun e => advantage_net_fit inputs targets epochs = Raise e).
Proof.
  intro w. unfold advantage_fit, bind, modify, lift.
  destruct (advantage_net_fit inputs targets epochs); [exact Logic.I | reflexivity].
Qed.

Lemma outcome_evaluate_declaration_accuracy
    (test_states : list GameState) (num_samples : Z) :
  (0 <= num_samples)%Z ->
  outcome (evaluate_declaration_accuracy encode_state test_states num_samples)
          (fun _ => True) no_exception.
Proof.
  intros Hn w.
  destruct (random_sample_ok test_states (sample_size test_states num_samples) w)
    as (sampled & w' & Hs & _).
  { apply sample_size_bounds, Hn. }
  unfold evaluate_declaration_accuracy, bind. rewrite Hs. exact Logic.I.
Qed.

Lemma outcome_evaluate_win_rate (num_games : nat) (opponent : string) :
  (0 < num_games)%nat ->
  outcome (evaluate_win_rate num_games opponent) (fun _ => True) no_exception.
Proof.
  intro Hn. unfold evaluate_win_rate.
  eapply outcome_bind; [apply outcome_play_games|].
  intros wins _.
  replace (num_games =? 0)%nat with false by (symmetry; apply Nat.eqb_neq; lia).
  now apply outcome_ret.
Qed.

Lemma outcome_training_iteration (current_state : list GameState) (i : nat) :
  outcome (training_iteration encode_state input_size advantage_net_fit
             current_state i)
          (fun _ => True) (iteration_failure encode_state input_size advantage_net_fit
             current_state).
Proof.
  unfold training_iteration. cbv zeta.
  eapply outcome_bind.
  { eapply outcome_weaken; [apply outcome_np_random_choice | intros a Ha; exact Ha|].
    intros e [-> Hlen]. left. split; [reflexivity|].
    now apply length_zero_iff_nil. }
  intros batch_indices [Hlen Hidx]. eapply outcome_bind.
  { apply (outcome_map_m (getitem current_state) batch_indices
             (fun s => In s current_state)
             (iteration_failure encode_state input_size advantage_net_fit
                current_state)).
    intros idx Hin. apply outcome_getitem.
    rewrite Forall_forall in Hidx. apply Hidx, Hin. }
  intros batch_states [Hbatch Hblen]. rewrite Hlen in Hblen.
  eapply outcome_bind
    with (R := fun r => np_array (map encode_state batch_states) = Ok r).
  { apply outcome_lift.
    destruct (np_array (map encode_state batch_states)) as [raw | e] eqn:Hraw;
      [reflexivity|].
    right. left. exists batch_states.
    split; [exact Hblen|]. split; [exact Hbatch|]. left. exact Hraw. }
  intros raw Hraw. eapply outcome_bind
    with (R := fun g => reshape_guard input_size raw = Ok g).
  { apply outcome_lift.
    destruct (reshape_guard input_size raw) as [g | e] eqn:Hguard; [reflexivity|].
    right. left. exists batch_states.
    split; [exact Hblen|]. split; [exact Hbatch|].
    right. exists raw. split; [exact Hraw | exact Hguard]. }
  intros encoded_states Hguard.
  eapply outcome_bind; [apply (outcome_np_random_rand 32 output_size)|].
  intros targets _. eapply outcome_bind with (R := fun _ => True).
  { eapply outcome_weaken; [apply outcome_advantage_fit | intros a Ha; exact Ha |].
    intros e He. right. right. now exists encoded_states, targets. }
  intros loss _. eapply outcome_bind; [apply outcome_random_random|].
  intros r _. eapply outcome_bind with (R := fun _ => True).
  { eapply outcome_weaken;
      [apply (outcome_evaluate_declaration_accuracy current_state 100); lia
      | intros a Ha; exact Ha | intros e []]. }
  intros metrics _. eapply outcome_bind with (R := fun _ => True).
  { eapply outcome_weaken;
      [apply (outcome_evaluate_win_rate 50 "random"); lia
      | intros a Ha; exact Ha | intros e []]. }
  intros rate _. intro w. exact Logic.I.
Qed.

Lemma outcome_evaluate_cfr_training
    (current_state : list GameState) (iterations : nat) :
  outcome (evaluate_cfr_training encode_state input_size advantage_net_fit
             presentation current_state iterations)
          (fun _ => True)
          (fun e => iteration_failure encode_state input_size advantage_net_fit
                      current_state e \/
                    exists h, presentation h current_state = Raise e).
Proof.
  unfold evaluate_cfr_training.
  eapply outcome_bind with (R := fun _ => True); [intro w; exact Logic.I|].
  intros _ _. eapply outcome_bind with (R := fun _ => True).
  { eapply outcome_weaken;
      [apply outcome_for_each | intros a Ha; exact Ha | intros e He; left; exact He].
    intros i _. apply outcome_training_iteration. }
  intros _ _. eapply outcome_bind; [apply outcome_get|].
  intros w0 _. eapply outcome_bind with (R := fun _ => True).
  { intro w. unfold lift.
    destruct (presentation (history w0) current_state) eqn:Hp; [exact Logic.I|].
    right. now exists (history w0). }
  intros _ _. now apply outcome_ret.
Qed.


(** With a non-empty pool, encodings that are all vectors of length
    [input_size] or all rows of shape (1, input_size), an estimator
    whose [fit] returns and chart generation that succeeds, the call
    returns the history of [iterations] complete epochs after exactly
    [iterations] calls of the estimator. *)
Theorem evaluate_cfr_training_returns
    (current_state : list GameState) (iterations : nat) (w : World) :
  current_state <> [] ->
  ((forall s, In s current_state -> shape (encode_state s) = [input_size]) \/
   ((0 < input_size)%nat /\
    forall s, In s current_state -> shape (encode_state s) = [1%nat; input_size])) ->
  (forall inputs targets, exists loss, advantage_net_fit inputs targets 1%nat = Ok loss) ->
  (forall h, presentation h current_state = Ok tt) ->
  exists h w',
    evaluate_cfr_training encode_state input_size advantage_net_fit
        presentation current_state iterations w
      = (Ok h, w') /\
    h = history w' /\
    logged iterations h /\
    length (advantage_fit_calls w')
      = (length (advantage_fit_calls w) + iterations)%nat.
Proof.
  intros Hne Hshape Hfit Hpres.
  pose proof (outcome_evaluate_cfr_training current_state iterations w) as Hout.
  pose proof (hoare_evaluate_cfr_training encode_state input_size advantage_net_fit
                presentation current_state iterations w w eq_refl) as Hh.
  destruct (evaluate_cfr_training encode_state input_size advantage_net_fit
              presentation current_state iterations w) as [[h | e] w'].
  { exists h, w'. destruct Hh as (Hhist & Hl & Hc). subst h.
    split; [reflexivity|]. split; [reflexivity|]. split; [exact Hl | exact Hc]. }
  exfalso.
  destruct Hout as [[[_ Hempty] | [(batch & Hlen & Hin & Hfail) | Hf]] | [h Hp]].
  - contradiction.
  - assert (Hbne : map encode_state batch <> []).
    { destruct batch; [discriminate Hlen | discriminate]. }
    destruct Hshape as [Hflat | [Hpos Hrow]].
    + assert (Hall : Forall (fun r => shape r = [input_size]) (map encode_state batch)).
      { apply Forall_forall. intros r Hr. apply in_map_iff in Hr as (s & <- & Hs).
        rewrite Forall_forall in Hin. apply Hflat, Hin, Hs. }
      rewrite (np_array_uniform _ _ Hbne Hall) in Hfail.
      destruct Hfail as [Hraw | (raw & Hraw & Hg)]; [discriminate|].
      injection Hraw as <-. discriminate Hg.
    + assert (Hall : Forall (fun r => shape r = [1%nat; input_size])
                            (map encode_state batch)).
      { apply Forall_forall. intros r Hr. apply in_map_iff in Hr as (s & <- & Hs).
        rewrite Forall_forall in Hin. apply Hrow, Hin, Hs. }
      rewrite (np_array_uniform _ _ Hbne Hall) in Hfail.
      destruct Hfail as [Hraw | (raw & Hraw & Hg)]; [discriminate|].
      injection Hraw as <-.
      rewrite (reshape_guard_singleton input_size
                 {| shape := [length (map encode_state batch); 1%nat; input_size];
                    data := concat (map data (map encode_state batch)) |}
                 (length (map encode_state batch)) Hpos eq_refl) in Hg.
      discriminate.
  - destruct Hf as (inputs & targets & Hf).
    destruct (Hfit inputs targets) as [loss Hl]. congruence.
  - rewrite Hpres in Hp. discriminate.
Qed.

End TrainingOutcome.

Section TrainingOutcomeExamples.

Import Examples.

Lemma evaluate_cfr_training_returns_witness :
  exists h w',
    evaluate_cfr_training encode_row 2 constant_loss no_charts
        pool_with_zero_sum 3 (fresh_world 4)
      = (Ok h, w') /\
    epoch h = [0%nat; 1%nat; 2%nat] /\
    length (win_rate h) = 3%nat /\
    length (advantage_fit_calls w') = 3%nat.
Proof.
  destruct (evaluate_cfr_training_returns encode_row 2 constant_loss no_charts
              pool_with_zero_sum 3 (fresh_world 4))
    as (h & w' & Hrun & _ & (He & _ & _ & _ & Hw) & Hc).
  - discriminate.
  - right. split; [lia|]. intros s _. reflexivity.
  - intros inputs targets. exists (1 # 2). reflexivity.
  - intro h. reflexivity.
  - exists h, w'. repeat split; assumption.
Defined.

End TrainingOutcomeExamples.

Section TrainingCalls.

Variable encode_state : GameState -> ndarray.
Variable input_size : nat.
Variable advantage_net_fit : ndarray -> ndarray -> nat -> Result Q.
Variable presentation : MetricHistory -> list GameState -> Result unit.

Lemma training_iteration_calls (current_state : list GameState) (i : nat) (w : World) :
  fit_trace never dummy_target_call w
    (snd (training_iteration encode_state input_size advantage_net_fit
            current_state i w)).
Proof.
  unfold training_iteration. cbv zeta.
  apply fit_trace_bind; [apply fit_trace_random_only, random_only_np_random_choice|].
  intros batch_indices w1 _.
  apply fit_trace_bind.
  { apply fit_trace_random_only, random_only_map_m. intro. apply random_only_getitem. }
  intros batch_states w2 _.
  apply fit_trace_bind; [apply fit_trace_random_only, random_only_lift|].
  intros raw w3 _.
  apply fit_trace_bind; [apply fit_trace_random_only, random_only_lift|].
  intros encoded_states w4 Hguard. apply lift_ok in Hguard.
  apply fit_trace_bind; [apply fit_trace_random_only, random_only_np_random_rand|].
  intros targets w5 Ht.
  pose proof (outcome_np_random_rand 32 output_size no_exception w4) as Hrand.
  rewrite Ht in Hrand. destruct Hrand as (Hshape & Hlen & Hdata).
  apply fit_trace_bind.
  { apply fit_trace_advantage_fit. unfold dummy_target_call. cbn [fit_epochs
      fit_targets fit_inputs].
    split; [reflexivity|]. split; [exact Hshape|]. split; [exact Hlen|].
    split; [exact Hdata|]. eapply reshape_guard_not_rank3, Hguard. }
  intros loss w6 _.
  apply fit_trace_fit_free.
  apply fit_free_bind; [apply random_only_fit_free, random_only_random_random | intro r].
  apply fit_free_bind;
    [apply random_only_fit_free, random_only_evaluate_declaration_accuracy | intro m].
  apply fit_free_bind;
    [apply random_only_fit_free, random_only_evaluate_win_rate | intro rate].
  apply fit_free_log_metrics.
Qed.

(** The strategy estimator is never called, and every call the
    advantage estimator receives asks for one epoch on a full 32-by-141
    array of numbers in [0, 1) as targets. *)
Theorem evaluate_cfr_training_calls
    (current_state : list GameState) (iterations : nat) (w : World) :
  fit_trace never dummy_target_call w
    (snd (evaluate_cfr_training encode_state input_size advantage_net_fit
            presentation current_state iterations w)).
Proof.
  unfold evaluate_cfr_training.
  apply fit_trace_bind.
  { apply fit_trace_fit_free. intro w0. split; reflexivity. }
  intros _ w1 _.
  apply fit_trace_bind.
  { apply fit_trace_for_each. intros i w0. apply training_iteration_calls. }
  intros _ w2 _.
  apply fit_trace_bind; [apply fit_trace_random_only, random_only_get|].
  intros w0 w3 _.
  apply fit_trace_bind; [apply fit_trace_random_only, random_only_lift|].
  intros _ w4 _. apply fit_trace_random_only, random_only_ret.
Qed.

End TrainingCalls.

(* ================================================================== *)
(** ** The rate shown by plot_declaration_distribution *)

Section PlottedRate.

Import Worded.

Variable encode_state : GameState -> ndarray.

Lemma overestimations_of_states (states : list GameState) :
  overestimations (map selectaction states) (map sum states)
    = length (filter overestimates states).
Proof.
  unfold overestimations. induction states as [|s rest IH]; [reflexivity|].
  cbn [map combine filter fst snd]. unfold overestimates at 1.
  destruct (Qgtb (selectaction s) (sum s)); cbn [length]; now rewrite IH.
Qed.

Lemma filter_length_mono {A : Type} (p q : A -> bool) (xs : list A) :
  (forall x, p x = true -> q x = true) ->
  (length (filter p xs) <= length (filter q xs))%nat.
Proof.
  intro Hpq. induction xs as [|x xs IH]; simpl; [lia|].
  destruct (p x) eqn:Hp.
  - rewrite (Hpq x Hp). simpl. lia.
  - destruct (q x); simpl; lia.
Qed.

(** On the same declared and actual values the rate of
    [plot_declaration_distribution] lies between 0 and 1 and is at least
    the overestimation rate of [evaluate_declaration_accuracy], which
    leaves out the states whose sum is not positive; the two agree when
    every sum is positive. *)
Theorem plotted_overestimation_rate_dominates (states : list GameState) :
  states <> [] ->
  exists avg_ratio accuracy overestimation_rate,
    declaration_metrics encode_state states (Z.of_nat (length states))
      = (avg_ratio, accuracy, overestimation_rate) /\
    is_rate (plotted_overestimation_rate (map selectaction states) (map sum states)) /\
    overestimation_rate
      <= plotted_overestimation_rate (map selectaction states) (map sum states) /\
    (Forall (fun s => 0 < sum s) states ->
       overestimation_rate
         == plotted_overestimation_rate (map selectaction states) (map sum states)).
Proof.
  intro Hne.
  destruct (declaration_metrics_spec encode_state states Hne)
    as (a & b & c & Hm & _ & _ & Hc).
  exists a, b, c. split; [exact Hm|].
  assert (Hplot : plotted_overestimation_rate (map selectaction states) (map sum states)
                  = fraction overestimates states).
  { unfold plotted_overestimation_rate, fraction.
    rewrite overestimations_of_states, length_map.
    destruct states; [congruence | reflexivity]. }
  rewrite Hplot.
  assert (Hn : 0 < inject_Z (Z.of_nat (length states))).
  { change 0 with (inject_Z 0). rewrite <- Zlt_Qlt.
    destruct states; [congruence | cbn [length]; lia]. }
  split; [apply fraction_is_rate, Hne|]. split.
  - rewrite Hc. unfold fraction, Qdiv.
    apply Qmult_le_compat_r; [|apply Qlt_le_weak, Qinv_lt_0_compat, Hn].
    rewrite <- Zle_Qle. apply inj_le, filter_length_mono.
    intros s Hs. unfold counted_overestimate in Hs.
    now apply andb_true_iff in Hs.
  - intro Hall. rewrite Hc. unfold fraction.
    rewrite (filter_ext_on counted_overestimate overestimates); [reflexivity|].
    eapply Forall_impl; [|exact Hall]. intros s Hs.
    apply positive_sum_iff in Hs. unfold counted_overestimate. now rewrite Hs.
Qed.

End PlottedRate.

Section PlottedRateExamples.

Import Examples.

Lemma plotted_overestimation_rate_dominates_witness :
  pool_with_zero_sum <> [] /\
  exists avg_ratio accuracy overestimation_rate,
    declaration_metrics encode_row pool_with_zero_sum 2
      = (avg_ratio, accuracy, overestimation_rate) /\
    overestimation_rate == 0 /\
    plotted_overestimation_rate (map selectaction pool_with_zero_sum)
                                (map sum pool_with_zero_sum) == 1 # 2.
Proof.
  split; [discriminate|].
  destruct (plotted_overestimation_rate_dominates encode_row pool_with_zero_sum)
    as (a & b & c & Hm & _ & _ & _); [discriminate|].
  exists a, b, c. split; [exact Hm|].
  vm_compute in Hm. injection Hm as _ _ <-.
  split; reflexivity.
Defined.

End PlottedRateExamples.

(* ================================================================== *)
(** ** The five bars of visualize_model_prediction *)

Section TopActions.

Lemma insert_by_probability_permutation (x : Q * Q) (l : list (Q * Q)) :
  Permutation (insert_by_probability x l) (x :: l).
Proof.
  induction l as [|y l IH]; simpl; [apply Permutation_refl|].
  destruct (Qgtb (snd y) (snd x)); [|apply Permutation_refl].
  eapply Permutation_trans; [apply perm_skip, IH | apply perm_swap].
Qed.

Lemma sorted_by_probability_permutation (items : list (Q * Q)) :
  Permutation (sorted_by_probability items) items.
Proof.
  induction items as [|x items IH]; simpl; [constructor|].
  eapply Permutation_trans;
    [apply insert_by_probability_permutation | apply perm_skip, IH].
Qed.

Lemma insert_by_probability_sorted (x : Q * Q) (l : list (Q * Q)) :
  StronglySorted at_least_as_probable l ->
  StronglySorted at_least_as_probable (insert_by_probability x l).
Proof.
  induction 1 as [|y l Hl IH Hy]; simpl.
  - constructor; constructor.
  - destruct (Qgtb (snd y) (snd x)) eqn:Hgt.
    + constructor; [exact IH|].
      apply Forall_forall. intros z Hz.
      apply (Permutation_in _ (insert_by_probability_permutation x l)) in Hz.
      destruct Hz as [<- | Hz].
      * apply Qgtb_true in Hgt. unfold at_least_as_probable. lra.
      * rewrite Forall_forall in Hy. apply Hy, Hz.
    + apply Qgtb_false in Hgt. constructor; [now constructor|].
      constructor; [exact Hgt|].
      eapply Forall_impl; [|exact Hy]. intros z Hz.
      unfold at_least_as_probable in *. lra.
Qed.

Lemma sorted_by_probability_sorted (items : list (Q * Q)) :
  StronglySorted at_least_as_probable (sorted_by_probability items).
Proof.
  induction items as [|x items IH]; simpl; [constructor|].
  apply insert_by_probability_sorted, IH.
Qed.

Lemma StronglySorted_split {A : Type} (R : A -> A -> Prop) (n : nat) (l : list A) :
  StronglySorted R l ->
  StronglySorted R (firstn n l) /\
  (forall x y, In x (firstn n l) -> In y (skipn n l) -> R x y).
Proof.
  intro Hs. revert n. induction Hs as [|a l Hl IH Ha]; intro n.
  - rewrite firstn_nil, skipn_nil. split; [constructor | intros x y []].
  - destruct n as [|n]; [split; [constructor | intros x y []]|].
    cbn [firstn skipn]. destruct (IH n) as [Hf Hcross]. split.
    + constructor; [exact Hf|].
      apply Forall_forall. intros z Hz. rewrite Forall_forall in Ha.
      apply Ha. rewrite <- (firstn_skipn n l). apply in_or_app. now left.
    + intros x y [<- | Hx] Hy.
      * rewrite Forall_forall in Ha. apply Ha.
        rewrite <- (firstn_skipn n l). apply in_or_app. now right.
      * now apply Hcross.
Qed.

(** The bars shown are min(5, number of actions) of the predicted
    actions, in order of decreasing probability, and no action left out
    is more probable than one that is shown. *)
Theorem sorted_actions_top_five (action_probs : list (Q * Q)) :
  length (sorted_actions action_probs) = Nat.min 5 (length action_probs) /\
  StronglySorted at_least_as_probable (sorted_actions action_probs) /\
  exists left_out,
    Permutation (sorted_actions action_probs ++ left_out) action_probs /\
    forall shown other,
      In shown (sorted_actions action_probs) ->
      In other left_out ->
      snd other <= snd shown.
Proof.
  unfold sorted_actions.
  destruct (StronglySorted_split at_least_as_probable 5
              (sorted_by_probability action_probs)
              (sorted_by_probability_sorted action_probs)) as [Hf Hcross].
  split.
  { rewrite length_firstn.
    now rewrite (Permutation_length (sorted_by_probability_permutation action_probs)). }
  split; [exact Hf|].
  exists (skipn 5 (sorted_by_probability action_probs)). split.
  - rewrite firstn_skipn. apply sorted_by_probability_permutation.
  - exact Hcross.
Qed.

End TopActions.

(* ================================================================== *)
(** ** evaluate_cfr_training: the values that are logged *)

Section LoggedValues.

Variable encode_state : GameState -> ndarray.
Variable input_size : nat.
Variable advantage_net_fit : ndarray -> ndarray -> nat -> Result Q.
Variable presentation : MetricHistory -> list GameState -> Result unit.

Lemma plausible_stable (w w' : World) :
  untouched w w' -> plausible_history w -> plausible_history w'.
Proof.
  intros (_ & Hh & _) H. unfold plausible_history in *. now rewrite Hh.
Qed.

(** A computation that only draws random numbers keeps the history
    plausible and, when it returns, returns a value as its outcome
    says. *)
Lemma hoare_plausible {A : Type} (P : Prop) (m : M A)
    (R : A -> Prop) (X : exn -> Prop) :
  random_only m ->
  outcome m R X ->
  hoare (fun w => plausible_history w /\ P) m
        (fun a w' => plausible_history w' /\ P /\ R a)
        (fun _ w' => plausible_history w').
Proof.
  intros Hro Hout w [Hw HP]. specialize (Hro w). specialize (Hout w).
  destruct (m w) as [[a | e] w1]; simpl in Hro.
  - split; [eapply plausible_stable; eassumption | now split].
  - eapply plausible_stable; eassumption.
Qed.

Lemma outcome_trivial {A : Type} (m : M A) :
  outcome m (fun _ => True) (fun _ => True).
Proof. intro w. destruct (m w) as [[a | e] w1]; exact Logic.I. Qed.

Lemma outcome_win_rate_is_rate (num_games : nat) (opponent : string) :
  outcome (evaluate_win_rate num_games opponent) is_rate (fun _ => True).
Proof.
  unfold evaluate_win_rate.
  eapply outcome_bind with (R := fun total => (0 <= total <= 0 + num_games)%nat).
  { eapply outcome_weaken with (X := no_exception);
      [ apply (outcome_play_games opponent num_games 0)
      | intros a Ha; exact Ha
      | intros e [] ]. }
  intros wins Hw. destruct num_games as [|n]; [intro w; exact Logic.I|].
  cbn [Nat.eqb]. apply outcome_ret.
  assert (Hn : 0 < inject_Z (Z.of_nat (S n))).
  { change 0 with (inject_Z 0). rewrite <- Zlt_Qlt. lia. }
  split.
  - apply Qle_shift_div_l; [exact Hn|]. rewrite Qmult_0_l.
    change 0 with (inject_Z 0). rewrite <- Zle_Qle. lia.
  - apply Qle_shift_div_r; [exact Hn|]. rewrite Qmult_1_l.
    rewrite <- Zle_Qle. lia.
Qed.

Lemma hoare_plausible_iteration (current_state : list GameState) (i : nat) :
  hoare plausible_history
        (training_iteration encode_state input_size advantage_net_fit current_state i)
        (fun _ => plausible_history)
        (fun _ => plausible_history).
Proof.
  assert (Hstep : forall (A : Type) (m : M A) (P : Prop),
            random_only m ->
            hoare (fun w => plausible_history w /\ P) m
                  (fun _ w' => plausible_history w' /\ P)
                  (fun _ w' => plausible_history w')).
  { intros A m P Hro. eapply hoare_consequence;
      [ apply (hoare_plausible P m (fun _ => True) (fun _ => True) Hro (outcome_trivial m))
      | intros w Hw; exact Hw
      | intros a w (Hw & HP & _); now split
      | intros e w Hw; exact Hw ]. }
  unfold training_iteration. cbv zeta.
  eapply hoare_consequence with (P := fun w => plausible_history w /\ True);
    [ | intros w Hw; now split | intros a w Hw; exact Hw | intros e w Hw; exact Hw ].
  eapply hoare_bind; [apply Hstep, random_only_np_random_choice|].
  intro batch_indices. eapply hoare_bind.
  { apply Hstep, random_only_map_m. intro. apply random_only_getitem. }
  intro batch_states. eapply hoare_bind; [apply Hstep, random_only_lift|].
  intro raw. eapply hoare_bind; [apply Hstep, random_only_lift|].
  intro encoded_states. eapply hoare_bind; [apply Hstep, random_only_np_random_rand|].
  intro targets.
  eapply hoare_bind with (Q1 := fun _ w' => plausible_history w' /\ True).
  { intros w [Hw _]. unfold advantage_fit, bind, modify, lift.
    destruct (advantage_net_fit encoded_states targets 1);
      [split; [exact Hw | exact Logic.I] | exact Hw]. }
  intro loss.
  eapply hoare_bind
    with (Q1 := fun r w' => plausible_history w' /\ True /\ in_unit_interval r).
  { apply hoare_plausible with (X := fun _ => True);
      [apply random_only_random_random | apply (outcome_random_random (fun _ => True))]. }
  intro r.
  eapply hoare_bind
    with (Q1 := fun _ w' => plausible_history w' /\ (True /\ in_unit_interval r)).
  { eapply hoare_consequence;
      [ apply (Hstep _ _ (True /\ in_unit_interval r)),
          random_only_evaluate_declaration_accuracy
      | intros w (Hw & HP); split; [exact Hw | exact HP]
      | intros a w Hw; exact Hw
      | intros e w Hw; exact Hw ]. }
  intro metrics.
  eapply hoare_bind
    with (Q1 := fun rate w' =>
                  plausible_history w' /\ (True /\ in_unit_interval r) /\ is_rate rate).
  { apply hoare_plausible with (X := fun _ => True);
      [apply random_only_evaluate_win_rate | apply outcome_win_rate_is_rate]. }
  intros rate w ([Hacc Hwin] & (_ & Hr0 & Hr1) & Hrate).
  unfold log_metrics, modify, plausible_history. simpl.
  split.
  - apply Forall_app. split; [exact Hacc|].
    constructor; [|constructor]. unfold simulated_accuracy. split; lra.
  - apply Forall_app. split; [exact Hwin|].
    constructor; [exact Hrate | constructor].
Qed.

(** Whatever the pool and the collaborators do, the history the call
    leaves holds only strategy accuracies in [0.6, 0.8) and win rates in
    [0, 1]. *)
Theorem evaluate_cfr_training_logged_values
    (current_state : list GameState) (iterations : nat) (w : World) :
  plausible_history
    (snd (evaluate_cfr_training encode_state input_size advantage_net_fit
            presentation current_state iterations w)).
Proof.
  assert (Hloop : forall xs,
            preserves plausible_history
              (for_each (training_iteration encode_state input_size advantage_net_fit
                           current_state) xs)).
  { intro xs. apply preserves_for_each. intros i _ w0 Hw0.
    pose proof (hoare_plausible_iteration current_state i w0 Hw0) as H.
    destruct (training_iteration encode_state input_size advantage_net_fit
                current_state i w0) as [[a | e] w1]; exact H. }
  unfold evaluate_cfr_training, bind at 1, modify.
  assert (Hstart : plausible_history (set_history empty_history w))
    by (split; constructor).
  revert Hstart. generalize (set_history empty_history w). intros w0 Hw0.
  change (plausible_history
            (snd (bind (for_each (training_iteration encode_state input_size
                                    advantage_net_fit current_state)
                                 (seq 0 iterations))
                       (fun _ => bind get (fun w1 =>
                          bind (lift (presentation (history w1) current_state))
                               (fun _ => ret (history w1)))) w0))).
  revert w0 Hw0.
  change (preserves plausible_history
            (bind (for_each (training_iteration encode_state input_size
                               advantage_net_fit current_state)
                            (seq 0 iterations))
                  (fun _ => bind get (fun w1 =>
                     bind (lift (presentation (history w1) current_state))
                          (fun _ => ret (history w1)))))).
  apply preserves_bind; [apply Hloop|].
  intros _. apply preserves_bind; [apply preserves_get|].
  intro w1. apply preserves_bind; [apply preserves_lift|].
  intros _. apply preserves_ret.
Qed.

End LoggedValues.

(* ================================================================== *)
(** ** Batches of one shape through the two training routines *)

Section UniformBatches.

Variable input_size : nat.
Variable strategy_net_fit : ndarray -> ndarray -> nat -> Result unit.

Lemma regret_match_length (v policy : list Q) :
  regret_match v = Ok policy -> length policy = length v.
Proof.
  unfold regret_match, regret_match_branch.
  destruct (np_min v) as [m | e]; [|discriminate].
  cbv zeta.
  destruct (Qgtb (np_sum (shifted_advantages v m)) 0);
    intro H; injection H as <-.
  - unfold shifted_advantages. now rewrite !length_map.
  - unfold uniform_policy. now rewrite length_map.
Qed.

Lemma buffer_add_keeps_uniform (sh : list nat) (n : nat) (item : Entry) :
  uniform_entry sh n item -> preserves (buffer_uniform sh n) (buffer_add item).
Proof.
  intros Hitem w Hw. unfold buffer_add, bind, get. cbv zeta.
  destruct (length (buffer (reservoir_buffer w)) <? capacity (reservoir_buffer w))%nat.
  - unfold modify, buffer_uniform. simpl.
    apply Forall_app. split; [exact Hw | now constructor].
  - unfold random_below.
    destruct (next_draw (S (seen (reservoir_buffer w))) (random_state w)) as [idx rest].
    destruct (idx <? capacity (reservoir_buffer w))%nat;
      unfold modify, buffer_uniform; simpl.
    + apply replace_at_Forall; [exact Hitem | exact Hw].
    + exact Hw.
Qed.

Lemma add_policy_target_keeps_uniform (sh : list nat) (n : nat)
    (obs : ndarray * list Q) :
  uniform_entry sh n obs -> preserves (buffer_uniform sh n) (add_policy_target obs).
Proof.
  destruct obs as [encoded_state advantage_vector]. intros [Hsh Hn] w Hw.
  unfold add_policy_target, bind, lift.
  destruct (regret_match advantage_vector) as [policy | e] eqn:Hp; [|exact Hw].
  apply buffer_add_keeps_uniform; [|exact Hw].
  split; [exact Hsh|]. cbn [fst snd] in *.
  rewrite (regret_match_length _ _ Hp). exact Hn.
Qed.

Lemma add_policy_targets_keeps_uniform (sh : list nat) (n : nat)
    (advantages : list (string * list (ndarray * list Q))) :
  observations_uniform sh n advantages ->
  preserves (buffer_uniform sh n) (add_policy_targets advantages).
Proof.
  intro H. unfold add_policy_targets. apply preserves_for_each. intros item Hitem.
  apply preserves_for_each. intros obs Hobs. apply add_policy_target_keeps_uniform.
  unfold observations_uniform in H. rewrite Forall_forall in H.
  specialize (H item Hitem). rewrite Forall_forall in H. apply H, Hobs.
Qed.

(** Rows in the shape [sh] always leave the guard in [guarded_shape]
    when numpy accepts the reshape. *)
Lemma reshape_guard_rows (rows : nat) (sh : list nat) (d : list Q) :
  fills_rows input_size rows sh ->
  reshape_guard input_size {| shape := rows :: sh; data := d |}
    = Ok {| shape := guarded_shape input_size rows sh; data := d |}.
Proof.
  intro Hfill. unfold reshape_guard, reshape, guarded_shape.
  cbn [shape data length size_of fold_right].
  change (S (length sh) =? 3)%nat with (length sh =? 2)%nat.
  destruct (length sh =? 2)%nat eqn:Hrank; [|reflexivity].
  apply Nat.eqb_eq in Hrank. destruct (Hfill Hrank) as [Hpos Hmod].
  replace (input_size =? 0)%nat with false by (symmetry; now apply Nat.eqb_neq).
  change (fold_right Nat.mul 1%nat sh) with (size_of sh).
  rewrite Hmod. reflexivity.
Qed.




(** What the fit on the sampled entries comes to: a call of the
    estimator on the assembled batch, or numpy's refusal. *)
Lemma fit_on_samples_outcome (samples : list Entry) (epochs : nat) (w : World) :
  (exists states targets,
     guarded_stack input_size (map fst samples) states /\
     np_array (map (fun s => vector (snd s)) samples) = Ok targets /\
     fit_on_samples input_size strategy_net_fit samples epochs w
       = (strategy_net_fit states targets epochs,
          record_strategy_fit (mk_fit states targets epochs) w)) \/
  (batch_refused input_size samples /\
   fit_on_samples input_size strategy_net_fit samples epochs w
     = (Raise ValueError, w)).
Proof.
  destruct (np_array (map fst samples)) as [raw | e] eqn:Hraw.
  2:{ right. pose proof (np_array_raises _ _ Hraw) as ->.
      split; [now left|].
      unfold fit_on_samples, bind, lift. rewrite Hraw. reflexivity. }
  destruct (np_array (map (fun s => vector (snd s)) samples)) as [targets | e] eqn:Ht.
  2:{ right. pose proof (np_array_raises _ _ Ht) as ->.
      split; [right; now left|].
      unfold fit_on_samples, bind, lift. rewrite Hraw, Ht. reflexivity. }
  destruct (reshape_guard input_size raw) as [states | e] eqn:Hg.
  2:{ right. pose proof (reshape_guard_raises _ _ _ Hg) as ->.
      split; [right; right; exists raw; now split|].
      unfold fit_on_samples, bind, lift. rewrite Hraw, Ht, Hg. reflexivity. }
  left. exists states, targets.
  split; [exists raw; now split|]. split; [reflexivity|].
  now apply fit_on_samples_records with (raw := raw).
Qed.

Lemma np_array_states (samples : list Entry) (sh : list nat) (n : nat) :
  samples <> [] ->
  Forall (uniform_entry sh n) samples ->
  np_array (map fst samples)
    = Ok {| shape := length samples :: sh;
            data := stacked_data (map fst samples) |}.
Proof.
  intros Hne Hall.
  rewrite (np_array_uniform (map fst samples) sh).
  - now rewrite length_map.
  - destruct samples; [congruence | discriminate].
  - apply Forall_forall. intros r Hr. apply in_map_iff in Hr as (s & <- & Hs).
    rewrite Forall_forall in Hall. apply (Hall s Hs).
Qed.

Lemma np_array_policies (samples : list Entry) (sh : list nat) (n : nat) :
  samples <> [] ->
  Forall (uniform_entry sh n) samples ->
  np_array (map (fun s => vector (snd s)) samples)
    = Ok {| shape := [length samples; n]; data := concat (map snd samples) |}.
Proof.
  intros Hne Hall.
  rewrite (np_array_uniform _ [n]).
  - rewrite length_map, map_map. reflexivity.
  - destruct samples; [congruence | discriminate].
  - apply Forall_forall. intros r Hr. apply in_map_iff in Hr as (s & <- & Hs).
    rewrite Forall_forall in Hall. destruct (Hall s Hs) as [_ Hn].
    unfold vector. cbn [shape]. now rewrite Hn.
Qed.

(** Sampled entries of one shape that fill rows of [input_size] are
    fitted. *)
Lemma fit_on_samples_uniform
    (samples : list Entry) (epochs : nat) (w : World) (sh : list nat) (n : nat) :
  samples <> [] ->
  Forall (uniform_entry sh n) samples ->
  fills_rows input_size (length samples) sh ->
  fit_on_samples input_size strategy_net_fit samples epochs w
    = (strategy_net_fit
         {| shape := guarded_shape input_size (length samples) sh;
            data := stacked_data (map fst samples) |}
         {| shape := [length samples; n]; data := concat (map snd samples) |}
         epochs,
       record_strategy_fit
         (mk_fit {| shape := guarded_shape input_size (length samples) sh;
                    data := stacked_data (map fst samples) |}
                 {| shape := [length samples; n];
                    data := concat (map snd samples) |}
                 epochs) w).
Proof.
  intros Hne Hall Hfill.
  apply fit_on_samples_records
    with (raw := {| shape := length samples :: sh;
                    data := stacked_data (map fst samples) |}).
  - now apply np_array_states with (n := n).
  - now apply np_array_policies with (sh := sh).
  - now apply reshape_guard_rows.
Qed.

(** With enough entries in the buffer the call is the fit on the sampled
    entries. *)
Lemma update_strategy_network_on_samples
    (advantages : list (string * list (ndarray * list Q)))
    (batch_size epochs : nat) (w w1 : World) :
  add_policy_targets advantages w = (Ok tt, w1) ->
  (batch_size <= length (buffer (reservoir_buffer w1)))%nat ->
  exists samples w2,
    buffer_sample batch_size w1 = (Ok samples, w2) /\
    length samples = batch_size /\
    incl samples (buffer (reservoir_buffer w1)) /\
    untouched w1 w2 /\
    update_strategy_network input_size strategy_net_fit advantages batch_size epochs w
      = fit_on_samples input_size strategy_net_fit samples epochs w2.
Proof.
  intros Hadd Hge.
  pose proof (update_strategy_network_after_add input_size strategy_net_fit
                advantages batch_size epochs w w1 Hadd) as Hupd.
  replace (length (buffer (reservoir_buffer w1)) <? batch_size)%nat with false in Hupd
    by (symmetry; apply Nat.ltb_ge, Hge).
  destruct (buffer_sample_ok batch_size w1 Hge)
    as (samples & w2 & Hs & Hlen & Hincl & Hu).
  exists samples, w2.
  split; [exact Hs|]. split; [exact Hlen|]. split; [exact Hincl|].
  split; [exact Hu|].
  rewrite Hupd. unfold bind. rewrite Hs. reflexivity.
Qed.

Lemma incl_Forall_entries (P : Entry -> Prop) (samples pool : list Entry) :
  incl samples pool -> Forall P pool -> Forall P samples.
Proof.
  intros Hincl Hall. apply Forall_forall. intros s Hs.
  rewrite Forall_forall in Hall. apply Hall, Hincl, Hs.
Qed.


End UniformBatches.

(* ================================================================== *)
(** ** update_strategy_network: when the strategy estimator is fitted *)

Section FitGuard.

Variable input_size : nat.
Variable strategy_net_fit : ndarray -> ndarray -> nat -> Result unit.

(** C6, in the form the code satisfies.  With no empty advantage vector
    the policy targets are all added.  If the buffer then holds fewer
    than [batch_size] entries the call returns normally and the strategy
    estimator is not called.  If it holds at least [batch_size] entries,
    [batch_size] of them are sampled and the call ends in one of two
    ways: the sampled states and policies assemble into a batch and the
    estimator's [fit] is called on it, the call ending as that [fit]
    does; or numpy refuses the batch, [ValueError] escapes and no [fit]
    is made.  The fit is made whenever the buffer and the observations
    hold states of one shape and vectors of one length, and a stack of
    rank 3 fills rows of [input_size]. *)
Theorem update_strategy_network_fit_guard
    (advantages : list (string * list (ndarray * list Q)))
    (batch_size epochs : nat) (w : World) :
  Forall (fun item => Forall (fun obs => snd obs <> []) (snd item)) advantages ->
  exists w1,
    add_policy_targets advantages w = (Ok tt, w1) /\
    strategy_fit_calls w1 = strategy_fit_calls w /\
    ((length (buffer (reservoir_buffer w1)) < batch_size)%nat ->
       update_strategy_network input_size strategy_net_fit
           advantages batch_size epochs w
         = (Ok tt, w1)) /\
    ((batch_size <= length (buffer (reservoir_buffer w1)))%nat ->
       exists samples w2,
         buffer_sample batch_size w1 = (Ok samples, w2) /\
         length samples = batch_size /\
         incl samples (buffer (reservoir_buffer w1)) /\
         strategy_fit_calls w2 = strategy_fit_calls w /\
         ((exists states targets,
             guarded_stack input_size (map fst samples) states /\
             np_array (map (fun s => vector (snd s)) samples) = Ok targets /\
             update_strategy_network input_size strategy_net_fit
                 advantages batch_size epochs w
               = (strategy_net_fit states targets epochs,
                  record_strategy_fit (mk_fit states targets epochs) w2)) \/
          (batch_refused input_size samples /\
           update_strategy_network input_size strategy_net_fit
               advantages batch_size epochs w
             = (Raise ValueError, w2))) /\
         (forall sh n,
            (0 < batch_size)%nat ->
            observations_uniform sh n advantages ->
            buffer_uniform sh n w ->
            fills_rows input_size batch_size sh ->
            update_strategy_network input_size strategy_net_fit
                advantages batch_size epochs w
              = (strategy_net_fit
                   {| shape := guarded_shape input_size batch_size sh;
                      data := stacked_data (map fst samples) |}
                   {| shape := [batch_size; n];
                      data := concat (map snd samples) |}
                   epochs,
                 record_strategy_fit
                   (mk_fit {| shape := guarded_shape input_size batch_size sh;
                              data := stacked_data (map fst samples) |}
                           {| shape := [batch_size; n];
                              data := concat (map snd samples) |}
                           epochs) w2))).
Proof.
  intro Hall.
  destruct (add_policy_targets_returns advantages w Hall) as [w1 Hadd].
  pose proof (fit_free_add_policy_targets advantages w) as [Hcalls _].
  rewrite Hadd in Hcalls. simpl in Hcalls.
  exists w1. split; [exact Hadd|]. split; [exact Hcalls|].
  split.
  - intro Hlt.
    rewrite (update_strategy_network_after_add input_size strategy_net_fit
               advantages batch_size epochs w w1 Hadd).
    apply Nat.ltb_lt in Hlt. rewrite Hlt. reflexivity.
  - intro Hge.
    destruct (update_strategy_network_on_samples input_size strategy_net_fit
                advantages batch_size epochs w w1 Hadd Hge)
      as (samples & w2 & Hs & Hlen & Hincl & Hu & Hrest).
    exists samples, w2.
    split; [exact Hs|]. split; [exact Hlen|]. split; [exact Hincl|].
    split; [destruct Hu as (_ & _ & Hsc & _); congruence|].
    split.
    + rewrite Hrest.
      apply fit_on_samples_outcome.
    + intros sh n Hpos Hobs Hbuf Hfill.
      rewrite Hrest. rewrite <- Hlen in Hfill |- *.
      apply fit_on_samples_uniform; [|  | exact Hfill].
      * destruct samples; [simpl in Hlen; lia | discriminate].
      * apply incl_Forall_entries with (pool := buffer (reservoir_buffer w1));
          [exact Hincl|].
        pose proof (add_policy_targets_keeps_uniform sh n advantages Hobs w Hbuf)
          as Hkeep.
        rewrite Hadd in Hkeep. exact Hkeep.
Qed.

End FitGuard.

Section FitGuardExamples.

Import Examples.

(** Two observations with states of shape (1, 2) and [input_size = 2].
    Batch size 3: the fit is skipped.  Batch size 2: the estimator is
    called once, on the two states as a 2-by-2 batch. *)
Lemma update_strategy_network_fit_guard_witness :
  Forall (fun item => Forall (fun obs => snd obs <> []) (snd item)) two_observations /\
  (exists w1,
     update_strategy_network 2 silent_fit two_observations 3 10 (fresh_world 4)
       = (Ok tt, w1) /\
     length (buffer (reservoir_buffer w1)) = 2%nat /\
     strategy_fit_calls w1 = []) /\
  (exists w2 targets,
     update_strategy_network 2 silent_fit two_observations 2 10 (fresh_world 4)
       = (Ok tt, w2) /\
     strategy_fit_calls w2
       = [mk_fit {| shape := [2%nat; 2%nat]; data := [10; 10; 5; 0] |} targets 10] /\
     shape targets = [2%nat; 3%nat]).
Proof.
  assert (Hall : Forall (fun item => Forall (fun obs => snd obs <> []) (snd item))
                        two_observations).
  { repeat constructor; discriminate. }
  split; [exact Hall|]. split.
  - destruct (update_strategy_network_fit_guard 2 silent_fit two_observations 3 10
                (fresh_world 4) Hall) as (w1 & Hadd & Hcalls & Hskip & _).
    exists w1. vm_compute in Hadd. injection Hadd as <-.
    split; [apply Hskip; vm_compute; lia|]. split; reflexivity.
  - destruct (update_strategy_network_fit_guard 2 silent_fit two_observations 2 10
                (fresh_world 4) Hall) as (w1 & Hadd & Hcalls & _ & Hfit).
    vm_compute in Hadd. injection Hadd as <-.
    destruct Hfit as (samples & w2 & Hs & Hlen & Hincl & Hc2 & _ & Hrun);
      [vm_compute; lia|].
    vm_compute in Hs. injection Hs as <- <-.
    eexists. eexists.
    split; [apply (Hrun [1%nat; 2%nat] 3%nat)|].
    + lia.
    + repeat constructor.
    + constructor.
    + intros _. split; [discriminate | reflexivity].
    + split; reflexivity.
Defined.

(** States of shape (1, 2) and [input_size = 3]: the buffer holds the two
    entries the batch needs, and no fit is made. *)
Lemma update_strategy_network_fit_not_reached :
  exists w',
    update_strategy_network 3 silent_fit two_observations 2 10 (fresh_world 4)
      = (Raise ValueError, w') /\
    (2 <= length (buffer (reservoir_buffer w')))%nat /\
    strategy_fit_calls w' = [].
Proof.
  eexists. split; [vm_compute; reflexivity|].
  split; [vm_compute; lia | reflexivity].
Qed.

End FitGuardExamples.

(* ================================================================== *)
(** ** evaluate_cfr_training: the batch the advantage estimator is fitted on *)

Section OrchestratorCalls.

Variable encode_state : GameState -> ndarray.
Variable input_size : nat.
Variable advantage_net_fit : ndarray -> ndarray -> nat -> Result Q.
Variable presentation : MetricHistory -> list GameState -> Result unit.








End OrchestratorCalls.

(* ================================================================== *)
(** ** The reshape guard in both routines *)

Section ReshapeBeforeFit.

Variable encode_state : GameState -> ndarray.
Variable input_size : nat.
Variable advantage_net_fit : ndarray -> ndarray -> nat -> Result Q.
Variable presentation : MetricHistory -> list GameState -> Result unit.
Variable strategy_net_fit : ndarray -> ndarray -> nat -> Result unit.


End ReshapeBeforeFit.

Section ReshapeBeforeFitExamples.

Import Examples.



End ReshapeBeforeFitExamples.

(* ================================================================== *)
(** ** Regret matching on binary64 numbers *)

Section BinaryFloats.

Import RegretMatchingFloat.



End BinaryFloats.
